(** * youtube_analytics_pipeline: the metrics aggregation and caching engine

    A shallow embedding of the Python sources

      - src/storage/redis_cache.py        (module [RedisCache])
      - src/processing/batch_processor.py (module [BatchProcessor])
      - src/storage/bigquery_handler.py   (module [BatchRollup]; the file
        holds a second, config-driven [BatchProcessor] class)
      - src/serving/metrics_service.py    (module [MetricsService])
      - src/serving/api_server.py         (module [ApiServer])
      - src/ingestion/event_validator.py  (module [EventValidator])

    together with the two collaborators they drive: a Redis server
    (module [Redis]) and a BigQuery table (a list of rows).

    Conventions.  Instants and durations are integers in one fixed unit
    (seconds, and milliseconds in the key space the housekeeping sweep
    walks over); every operation that reads the clock takes the reading
    as its argument [now].  A finite Python float is the rational it equals
    ([Q]) and arithmetic on finite floats is exact; [nan], [inf] and
    [-inf] are values of their own ([pyfloat]).  Python exceptions are
    values of [exn] carried by [outcome]. *)

From Stdlib Require Import ZArith QArith Ascii String List Lia Permutation Sorted.
From Stdlib Require Import DecimalString DecimalZ.
From stdpp Require Import gmap strings list fin_maps.

Open Scope string_scope.
Open Scope list_scope.
Open Scope Z_scope.

(* ===================================================================== *)
(** ** Python values, exceptions and conversions                          *)
(* ===================================================================== *)

Module Py.

(** The exceptions the sources raise or catch.  All of them are instances
    of Python's [Exception], so a bare [except Exception] catches each. *)
Inductive exn : Type :=
  | HTTPException (status_code : Z) (detail : string)
  | ConnectionError
  | ResponseError
  | DataError
  | ValueError
  | IndexError
  | BackendError.

Inductive outcome (A : Type) : Type :=
  | Ret (a : A)
  | Raise (e : exn).

Arguments Ret {A} a.
Arguments Raise {A} e.

Definition bind {A B : Type} (c : outcome A) (k : A → outcome B) : outcome B :=
  match c with
  | Ret a => k a
  | Raise e => Raise e
  end.

(** [try: body  except Exception as e: handler(e)] *)
Definition try_except {A : Type} (body : outcome A) (handler : exn → outcome A)
  : outcome A :=
  match body with
  | Ret a => Ret a
  | Raise e => handler e
  end.

Definition is_HTTPException (e : exn) : bool :=
  match e with
  | HTTPException _ _ => true
  | _ => false
  end.

(** A Python float: finite, or one of the three values that are not. *)
Inductive pyfloat : Type :=
  | Finite (q : Q)
  | NaN
  | PosInf
  | NegInf.

Coercion Finite : Q >-> pyfloat.

Definition is_nan (x : pyfloat) : bool :=
  match x with
  | NaN => true
  | _ => false
  end.

(** [x <= y] on floats: false as soon as one side is [nan]. *)
Definition float_le (x y : pyfloat) : bool :=
  match x, y with
  | NaN, _ | _, NaN => false
  | NegInf, _ => true
  | _, PosInf => true
  | PosInf, _ => false
  | Finite _, NegInf => false
  | Finite p, Finite q => Qle_bool p q
  end.

(** [x < y] and [x == y] *)
Definition float_lt (x y : pyfloat) : bool :=
  float_le x y && negb (float_le y x).

(** The numeric values a metrics dictionary holds. *)
Inductive pyval : Type :=
  | PInt (z : Z)
  | PFloat (x : pyfloat).

(** A byte string as Redis stores it, classified by what Python's [int()]
    and [float()] and Redis make of it: the decimal text of an integer,
    as [str()] and Redis write it and as Redis reads it; another text
    that [int()] reads as an integer (with a plus sign, blanks,
    underscores or leading zeros), which Redis does not take for one; a
    text that [float()] reads and [int()] rejects (it has a point or an
    exponent, or spells nan or an infinity), with the float it is read
    as; or any other text. *)
Inductive rbytes : Type :=
  | BInt (z : Z)
  | BIntOther (z : Z)
  | BFloat (x : pyfloat)
  | BText (s : string).

(** [str(v)]: an int prints as an integer text; a float prints with a
    point or an exponent, or as nan, inf or -inf, and the text reads back
    as the same float. *)
Definition str (v : pyval) : rbytes :=
  match v with
  | PInt z => BInt z
  | PFloat x => BFloat x
  end.

(** [int(b)] on bytes: raises ValueError unless [b] is an integer text. *)
Definition int (b : rbytes) : outcome Z :=
  match b with
  | BInt z | BIntOther z => Ret z
  | _ => Raise ValueError
  end.

(** The double nearest to a natural number: 53 significant bits, ties to
    the even neighbour. *)
Definition round53 (a : Z) : Z :=
  let sh := Z.log2 a - 52 in
  if sh <=? 0 then a
  else
    let q := Z.shiftr a sh in
    let rest := a - Z.shiftl q sh in
    let half := Z.shiftl 1 (sh - 1) in
    let q' := if (half <? rest) || ((rest =? half) && Z.odd q)
              then q + 1 else q in
    Z.shiftl q' sh.

(** [float(b)] on an integer text: the nearest double, and an infinity
    when that lies beyond the range of doubles. *)
Definition float_of_int (z : Z) : pyfloat :=
  let a := round53 (Z.abs z) in
  if 2 ^ 1024 <=? a
  then (if 0 <? z then PosInf else NegInf)
  else Finite (inject_Z (Z.sgn z * a)).

(** [float(b)] on bytes: integer texts and float texts both parse. *)
Definition float (b : rbytes) : outcome pyfloat :=
  match b with
  | BInt z | BIntOther z => Ret (float_of_int z)
  | BFloat x => Ret x
  | BText _ => Raise ValueError
  end.

(** [int(d.get(k, 0))] and [float(d.get(k, 0))]: the default is the Python
    int [0], which both conversions accept. *)
Definition int_get (d : gmap string rbytes) (k : string) : outcome Z :=
  match d !! k with
  | Some b => int b
  | None => Ret 0
  end.

Definition float_get (d : gmap string rbytes) (k : string)
  : outcome pyfloat :=
  match d !! k with
  | Some b => float b
  | None => Ret (Finite (inject_Z 0))
  end.

(** Truthiness of a dictionary: empty is false. *)
Definition truthy {V : Type} (d : gmap string V) : bool :=
  negb (bool_decide (d = ∅)).

(** [x or y] on an optional integer: [None] and [0] are both falsy. *)
Definition or_default (x : option Z) (y : Z) : Z :=
  match x with
  | None => y
  | Some 0 => y
  | Some t => t
  end.

#[global] Instance Q_eq_dec : EqDecision Q.
Proof. solve_decision. Defined.
#[global] Instance pyfloat_eq_dec : EqDecision pyfloat.
Proof. solve_decision. Defined.
#[global] Instance pyval_eq_dec : EqDecision pyval.
Proof. solve_decision. Defined.
#[global] Instance rbytes_eq_dec : EqDecision rbytes.
Proof. solve_decision. Defined.

End Py.

Import Py.

#[export] Instance outcome_ret : MRet Py.outcome := @Py.Ret.
#[export] Instance outcome_bind : MBind Py.outcome := λ A B k c, Py.bind c k.

(* ===================================================================== *)
(** ** The Redis server                                                   *)
(* ===================================================================== *)

Module Redis.

(** A hash key: its fields and its absolute expiry instant, if any. *)
Record hash_entry : Type := mk_hash {
  fields : gmap string rbytes;
  expiry : option Z
}.

(** A sorted set: (member, score) pairs kept in ascending score order. *)
Definition zset : Type := list (string * Z).

(** The server.  [up = false] stands for a backend that cannot be reached:
    every command then raises [ConnectionError] and changes nothing.  The
    key names the cache builds for hashes ("<prefix>video:..") and for
    sorted sets ("<prefix>window:..") differ at the first character after
    the prefix, so the two key spaces are kept apart. *)
Record server : Type := mk_server {
  up : bool;
  hashes : gmap string hash_entry;
  zsets : gmap string zset
}.

Definition empty_server : server := mk_server true ∅ ∅.

(** A key whose expiry instant lies in the past is gone. *)
Definition expired (now : Z) (e : hash_entry) : bool :=
  match expiry e with
  | None => false
  | Some t => t <? now
  end.

Definition live_entry (now : Z) (r : server) (key : string) : option hash_entry :=
  match hashes r !! key with
  | Some e => if expired now e then None else Some e
  | None => None
  end.

(** HGETALL: the fields of a live key, the empty dictionary otherwise. *)
Definition hgetall_fields (now : Z) (r : server) (key : string) : gmap string rbytes :=
  match live_entry now r key with
  | Some e => fields e
  | None => ∅
  end.

Definition hgetall (now : Z) (r : server) (key : string)
  : outcome (gmap string rbytes) :=
  if up r then Ret (hgetall_fields now r key) else Raise ConnectionError.

(** HMSET on a reachable server: the given fields overwrite, the other
    fields and the expiry of a live key stay. *)
Definition hmset (now : Z) (key : string) (mapping : gmap string rbytes)
    (r : server) : server :=
  let e' := match live_entry now r key with
            | Some e => mk_hash (mapping ∪ fields e) (expiry e)
            | None => mk_hash mapping None
            end in
  mk_server (up r) (<[key := e']> (hashes r)) (zsets r).

(** EXPIRE: a positive timeout sets the expiry of a live key to
    [now + seconds]; a timeout that is not positive deletes the key. *)
Definition expire (now : Z) (key : string) (seconds : Z) (r : server) : server :=
  match live_entry now r key with
  | Some e =>
      if 0 <? seconds
      then mk_server (up r) (<[key := mk_hash (fields e) (Some (now + seconds))]> (hashes r)) (zsets r)
      else mk_server (up r) (delete key (hashes r)) (zsets r)
  | None => r
  end.

(** The integers Redis computes with: signed, 64 bits wide. *)
Definition int64_min : Z := - 2 ^ 63.
Definition int64_max : Z := 2 ^ 63 - 1.
Definition in_int64 (z : Z) : bool := (int64_min <=? z) && (z <=? int64_max).

(** What HINCRBY makes of a field and an increment: the new value, or
    nothing when the command is refused.  The increment must be a 64-bit
    integer ("value is not an integer or out of range"), the field must be
    missing, which counts as 0, or hold the text of a 64-bit integer
    ("hash value is not an integer"), and the sum must be a 64-bit integer
    again ("increment or decrement would overflow"). *)
Definition hincrby_value (old : option rbytes) (amount : Z) : option Z :=
  if negb (in_int64 amount) then None
  else
    match old with
    | None => Some amount
    | Some (BInt z) =>
        if in_int64 z && in_int64 (z + amount) then Some (z + amount)
        else None
    | Some _ => None
    end.

(** HINCRBY on a reachable server.  A missing or expired key counts as an
    empty hash without expiry.  A refused command leaves the key as it
    was; the expiry is never touched. *)
Definition hincrby (now : Z) (key field : string) (amount : Z) (r : server)
  : server * bool :=
  let e := match live_entry now r key with
           | Some e => e
           | None => mk_hash ∅ None
           end in
  match hincrby_value (fields e !! field) amount with
  | Some v =>
      (mk_server (up r) (<[key := mk_hash (<[field := BInt v]> (fields e)) (expiry e)]> (hashes r)) (zsets r), true)
  | None => (r, false)
  end.



(** Insertion of a (member, score) pair in ascending score order; among
    equal scores members are in ascending text order. *)
Fixpoint zinsert (member : string) (score : Z) (z : zset) : zset :=
  match z with
  | [] => [(member, score)]
  | (m, s) :: rest =>
      if (score <? s) || ((score =? s) && String.ltb member m)
      then (member, score) :: (m, s) :: rest
      else (m, s) :: zinsert member score rest
  end.

(** ZADD of one member: a member already present is moved to its new
    score. *)
Definition zadd_set (member : string) (score : Z) (z : zset) : zset :=
  zinsert member score (filter (λ p, negb (String.eqb (fst p) member)) z).

Definition zset_of (r : server) (key : string) : zset :=
  default [] (zsets r !! key).

Definition store_zset (key : string) (z : zset) (r : server) : server :=
  mk_server (up r) (hashes r)
    (match z with
     | [] => delete key (zsets r)
     | _ => <[key := z]> (zsets r)
     end).

Definition zadd (key member : string) (score : Z) (r : server) : outcome server :=
  if up r
  then Ret (store_zset key (zadd_set member score (zset_of r key)) r)
  else Raise ConnectionError.

(** ZREMRANGEBYSCORE key -inf max: drops every member whose score is at
    most [max] (both ends of a score range are inclusive). *)
Definition zremrangebyscore_upto (key : string) (max : Z) (r : server)
  : outcome server :=
  if up r
  then Ret (store_zset key (filter (λ p, max <? snd p) (zset_of r key)) r)
  else Raise ConnectionError.

(** ZRANGE key 0 -1: all members, in score order. *)
Definition zrange_all (key : string) (r : server) : outcome (list string) :=
  if up r then Ret (map fst (zset_of r key)) else Raise ConnectionError.

(** *** The key space in milliseconds

    A sweep over the keys looks at nothing but which keys exist and when
    they expire.  The server keeps expiry instants in milliseconds, and a
    sweep runs for a while, so here the key space is a map from the key
    names to their expiry instant, if any, in milliseconds, and every
    command carries the instant in milliseconds at which the server
    handles it. *)
Abbreviation keyspace := (gmap string (option Z)).

(** A key is gone once the clock has passed its expiry instant. *)
Definition present (now_ms : Z) (ks : keyspace) (key : string)
  : option (option Z) :=
  match ks !! key with
  | Some (Some t) => if t <? now_ms then None else Some (Some t)
  | Some None => Some None
  | None => None
  end.

(** TTL: -2 for a key that does not exist, -1 for a key without expiry,
    and otherwise the time left in seconds, rounded to the nearest
    second: (milliseconds left + 500) / 1000. *)
Definition ttl (now_ms : Z) (key : string) (ks : keyspace) : Z :=
  match present now_ms ks key with
  | None => -2
  | Some None => -1
  | Some (Some t) => (t - now_ms + 500) / 1000
  end.

(** DEL *)
Definition del (key : string) (ks : keyspace) : keyspace := delete key ks.

(** Plain string keys.  The cache names them "<prefix>batch:..", apart
    from every hash and sorted-set key, so they have a store of their
    own. *)
Record string_entry : Type := mk_string {
  s_value : string;
  s_expiry : option Z
}.

Record string_store : Type := mk_strings {
  s_up : bool;
  s_keys : gmap string string_entry
}.

Definition empty_strings : string_store := mk_strings true ∅.

(** GET: the value of a live key. *)
Definition string_get (now : Z) (key : string) (st : string_store)
  : option string :=
  match s_keys st !! key with
  | Some e =>
      match s_expiry e with
      | Some t => if t <? now then None else Some (s_value e)
      | None => Some (s_value e)
      end
  | None => None
  end.

(** SET followed by EXPIRE in one pipeline. *)
Definition string_set_expire (now : Z) (key value : string) (seconds : Z)
    (st : string_store) : string_store :=
  if 0 <? seconds
  then mk_strings (s_up st) (<[key := mk_string value (Some (now + seconds))]> (s_keys st))
  else mk_strings (s_up st) (delete key (s_keys st)).

Definition string_del (key : string) (st : string_store) : string_store :=
  mk_strings (s_up st) (delete key (s_keys st)).

End Redis.

(* ===================================================================== *)
(** ** src/storage/redis_cache.py                                         *)
(* ===================================================================== *)

Module RedisCache.

Import Redis.

(** The attributes of a [RedisCache] object next to its connection. *)
Record config : Type := mk_config {
  prefix : string;
  default_ttl : Z
}.

(** [RedisCache()] with the constructor's defaults. *)
Definition default_config : config := mk_config "yt:" 3600.

Definition _get_key (self : config) (key : string) : string :=
  prefix self +:+ key.

Definition metrics_key (self : config) (video_id : string) : string :=
  _get_key self ("video:" +:+ video_id +:+ ":metrics").

(** [ttl or self.default_ttl] *)
Definition effective_ttl (self : config) (ttl : option Z) : Z :=
  or_default ttl (default_ttl self).

(** [set_video_metrics]: the two queued commands reach the server together
    when the pipeline executes; [hmset] itself refuses an empty mapping
    with [DataError] before anything is sent. *)
Definition set_video_metrics_body (self : config) (now : Z) (video_id : string)
    (metrics : gmap string pyval) (ttl : option Z) (r : server)
  : outcome server :=
  let key := metrics_key self video_id in
  let metrics_str := str <$> metrics in
  if negb (truthy metrics_str) then Raise DataError
  else if negb (up r) then Raise ConnectionError
  else Ret (expire now key (effective_ttl self ttl)
              (hmset now key metrics_str r)).

Definition set_video_metrics (self : config) (now : Z) (video_id : string)
    (metrics : gmap string pyval) (ttl : option Z) (r : server)
  : bool * server :=
  match set_video_metrics_body self now video_id metrics ttl r with
  | Ret r' => (true, r')
  | Raise _ => (false, r)
  end.

(** The dictionary [get_video_metrics] builds on a hit. *)
Definition metrics_dict (views likes : Z) (watch_time : pyfloat)
    (unique_users countries_reached : Z)
    (engagement_rate avg_watch_time : pyfloat)
  : gmap string pyval :=
  <["views" := PInt views]>
  (<["likes" := PInt likes]>
  (<["watch_time" := PFloat watch_time]>
  (<["unique_users" := PInt unique_users]>
  (<["countries_reached" := PInt countries_reached]>
  (<["engagement_rate" := PFloat engagement_rate]>
  (<["avg_watch_time" := PFloat avg_watch_time]> ∅)))))).

Definition get_video_metrics_body (self : config) (now : Z) (video_id : string)
    (r : server) : outcome (option (gmap string pyval)) :=
  let key := metrics_key self video_id in
  metrics ← hgetall now r key;
  if negb (truthy metrics) then Ret None
  else
    views ← int_get metrics "views";
    likes ← int_get metrics "likes";
    watch_time ← float_get metrics "watch_time";
    unique_users ← int_get metrics "unique_users";
    countries_reached ← int_get metrics "countries_reached";
    engagement_rate ← float_get metrics "engagement_rate";
    avg_watch_time ← float_get metrics "avg_watch_time";
    Ret (Some (metrics_dict views likes watch_time unique_users
                 countries_reached engagement_rate avg_watch_time)).

(** [except Exception: ... return None] *)
Definition get_video_metrics (self : config) (now : Z) (video_id : string)
    (r : server) : option (gmap string pyval) :=
  match get_video_metrics_body self now video_id r with
  | Ret res => res
  | Raise _ => None
  end.

(** The keys of the dictionary a hit returns, by the conversion applied. *)
Definition int_fields : gset string :=
  {[ "views"; "likes"; "unique_users"; "countries_reached" ]}.
Definition float_fields : gset string :=
  {[ "watch_time"; "engagement_rate"; "avg_watch_time" ]}.
Definition metric_fields : gset string := int_fields ∪ float_fields.

(** One [hincrby] per item of [metrics], all sent when the pipeline
    executes; the commands touch distinct fields, so their order does not
    matter.  A failed command does not undo the others, and makes
    [execute] raise. *)
Definition increment_all (now : Z) (key : string) (metrics : gmap string Z)
    (r : server) : server * bool :=
  map_fold (λ metric value acc,
              let '(r1, ok) := hincrby now key metric value (fst acc) in
              (r1, ok && snd acc))
           (r, true) metrics.

Definition increment_metrics (self : config) (now : Z) (video_id : string)
    (metrics : gmap string Z) (r : server) : bool * server :=
  let key := metrics_key self video_id in
  if negb (up r) then (false, r)
  else let '(r', ok) := increment_all now key metrics r in (ok, r').

(** The fields of a hash after one HINCRBY per item of [metrics]: a field
    whose command is accepted takes its new value, any other field is left
    alone. *)
Definition incremented (metrics : gmap string Z) (h : gmap string rbytes)
  : gmap string rbytes :=
  merge (λ d b, match d with
                | Some d =>
                    match hincrby_value b d with
                    | Some v => Some (BInt v)
                    | None => b
                    end
                | None => b
                end) metrics h.

(** HINCRBY accepts the increment [amount] of [field]. *)
Definition incrementable (h : gmap string rbytes) (field : string)
    (amount : Z) : Prop :=
  is_Some (hincrby_value (h !! field) amount).

(** What a command at instant [now] finds under [key]: the fields [h] and
    the expiry [x] of the live entry, or the empty hash without expiry. *)
Definition holds (now : Z) (r : server) (key : string)
    (h : gmap string rbytes) (x : option Z) : Prop :=
  live_entry now r key = Some (mk_hash h x)
  ∨ (live_entry now r key = None ∧ h = ∅ ∧ x = None).

(** *** The sliding window

    An event is a JSON-shaped dictionary.  The three things the window code
    does with one are taken as given: [json.dumps], [json.loads], and
    [event.get('timestamp')].  The two clock readings of one call to
    [add_to_processing_window] are the one instant [now]. *)
Section Window.

Context {Event : Type}.
Variable json_dumps : Event → string.
Variable json_loads : string → Event.
Variable event_timestamp : Event → option Z.

Definition window_key (self : config) (video_id : string) : string :=
  _get_key self ("window:" +:+ video_id).

Definition add_to_processing_window_body (self : config) (now : Z)
    (video_id : string) (event : Event) (window_size : Z) (r : server)
  : outcome server :=
  let key := window_key self video_id in
  let timestamp := default now (event_timestamp event) in
  r1 ← zadd key (json_dumps event) timestamp r;
  let min_timestamp := now - window_size in
  zremrangebyscore_upto key min_timestamp r1.

(** On an exception the method logs and returns [False]. *)
Definition add_to_processing_window (self : config) (now : Z)
    (video_id : string) (event : Event) (window_size : Z) (r : server)
  : bool * server :=
  match add_to_processing_window_body self now video_id event window_size r with
  | Ret r' => (true, r')
  | Raise _ => (false, r)
  end.

Definition get_window_events (self : config) (video_id : string) (r : server)
  : list Event :=
  let key := window_key self video_id in
  match zrange_all key r with
  | Ret events => map json_loads events
  | Raise _ => []
  end.

End Window.

(** *** Event batches

    [json.dumps] and [json.loads] on a list of events are taken as
    given. *)
Section Batches.

Context {Event : Type}.
Variable json_dumps : list Event → string.
Variable json_loads : string → list Event.

Definition batch_key (self : config) (batch_id : string) : string :=
  _get_key self ("batch:" +:+ batch_id).

Definition store_event_batch (self : config) (now : Z) (events : list Event)
    (batch_id : string) (st : string_store) : bool * string_store :=
  let key := batch_key self batch_id in
  if negb (s_up st) then (false, st)
  else (true, string_set_expire now key (json_dumps events) 300 st).

(** [results[0]] is the reply of GET: [None] for a missing key, and an
    empty byte string is falsy as well. *)
Definition get_and_delete_batch (self : config) (now : Z) (batch_id : string)
    (st : string_store) : option (list Event) * string_store :=
  let key := batch_key self batch_id in
  if negb (s_up st) then (None, st)
  else
    let result0 := string_get now key st in
    let st' := string_del key st in
    match result0 with
    | None => (None, st')
    | Some "" => (None, st')
    | Some payload => (Some (json_loads payload), st')
    end.

End Batches.

(** *** Housekeeping

    What the outside world settles for one round of the loop of
    [cleanup_old_data]: the key [scan_iter("<prefix>*")] yields, the
    instant in milliseconds at which the server handles the TTL command,
    and whether the TTL command and the DEL command reach the server.  A
    command that does not reach it raises and changes nothing. *)
Record probe : Type := mk_probe {
  p_key : string;
  p_at : Z;
  p_ttl_reached : bool;
  p_del_reached : bool
}.

(** The body of the loop: [if not self.redis.ttl(key)] holds for a TTL of
    0 only, since -1 and -2 are truthy.  An exception of either command is
    counted as an error. *)
Fixpoint cleanup_loop (scanned : list probe) (ks : keyspace)
    (cleaned errors : Z) : keyspace * Z * Z :=
  match scanned with
  | [] => (ks, cleaned, errors)
  | p :: rest =>
      if negb (p_ttl_reached p)
      then cleanup_loop rest ks cleaned (errors + 1)
      else if ttl (p_at p) (p_key p) ks =? 0
      then
        if p_del_reached p
        then cleanup_loop rest (del (p_key p) ks) (cleaned + 1) errors
        else cleanup_loop rest ks cleaned (errors + 1)
      else cleanup_loop rest ks cleaned errors
  end.

(** [scanned] are the rounds the loop runs through; [scan_completes] tells
    whether the scan then ends, or raises: the outer handler then returns
    (0, 0), whatever has been deleted by then. *)
Definition cleanup_old_data (scanned : list probe) (scan_completes : bool)
    (ks : keyspace) : (Z * Z) * keyspace :=
  let '(ks', cleaned, errors) := cleanup_loop scanned ks 0 0 in
  if scan_completes then ((cleaned, errors), ks') else ((0, 0), ks').

(** [healthcheck]: the reply of PING as a boolean, [False] on any
    exception. *)
Definition healthcheck (r : server) : bool := up r.

End RedisCache.

(* ===================================================================== *)
(** ** The BigQuery tables and the SQL the sources send                   *)
(* ===================================================================== *)

Module BigQuery.

(** A row of the raw events table. *)
Record raw_event : Type := mk_raw {
  ev_video_id : string;
  ev_event_timestamp : Z;
  ev_event_type : string;
  ev_user_id : string;
  ev_watch_time : Q;
  ev_country_code : string;
  ev_device_type : string;
  ev_playback_quality : string
}.

(** SUM over a float column and over an integer column. *)
Definition sumQ (l : list Q) : Q := foldr Qplus (inject_Z 0) l.
Definition sumZ (l : list Z) : Z := foldr Z.add 0 l.

(** AVG over a float column of at least one row. *)
Definition avgQ (l : list Q) : Q := (sumQ l / inject_Z (Z.of_nat (length l)))%Q.

(** MAX over an integer column of at least one row. *)
Definition maxZ (l : list Z) : Z :=
  match l with
  | [] => 0
  | x :: rest => foldr Z.max x rest
  end.

(** COUNT(DISTINCT col), and pandas' [len(col.unique())]. *)
Definition count_distinct (l : list string) : Z :=
  Z.of_nat (length (remove_dups l)).

(** COUNT over the rows a condition keeps, and pandas' [len(df[cond])]. *)
Definition count_rows {A : Type} (l : list A) : Z := Z.of_nat (length l).

Definition is_type (t : string) (e : raw_event) : bool :=
  String.eqb (ev_event_type e) t.

Definition of_video (video_id : string) (e : raw_event) : bool :=
  String.eqb (ev_video_id e) video_id.

(** The groups of GROUP BY video_id (and of [df.groupby('video_id')]); the
    order in which the groups come back plays no part below. *)
Definition group_keys (rows : list raw_event) : list string :=
  remove_dups (map ev_video_id rows).

(** [insert_rows_json]: a streaming insert appends the rows to the table;
    the reply is the list of per-row errors, empty when all went in. *)
Definition insert_rows_json {Row : Type} (table rows : list Row)
  : list Row * list string :=
  (table ++ rows, []).

End BigQuery.

(* ===================================================================== *)
(** ** src/processing/batch_processor.py                                  *)
(* ===================================================================== *)

Module BatchProcessor.

Import BigQuery.

(** A row of the data frame the hourly query returns. *)
Record df_row : Type := mk_df_row {
  df_video_id : string;
  df_unique_views : Z;
  df_likes : Z;
  df_total_watch_time : Q;
  df_unique_users : Z;
  df_countries_reached : Z
}.

(** The value of [data['metrics']]. *)
Record metrics_rec : Type := mk_metrics {
  unique_views : Z;
  likes : Z;
  total_watch_time : Q;
  unique_users : Z;
  countries_reached : Z;
  engagement_rate : Q;
  avg_watch_time : Q
}.

(** The value [metrics[video_id]]. *)
Record agg_entry : Type := mk_entry {
  entry_timestamp : Z;
  entry_metrics : metrics_rec
}.

(** A row of the aggregated (hourly_metrics) table. *)
Record agg_row : Type := mk_row {
  row_video_id : string;
  row_timestamp : Z;
  row_metrics : metrics_rec
}.

(** The two derived fields as the data model defines them:
    engagement_rate = likes / views and avg_watch_time = watch_time_total /
    views, both 0 when views = 0. *)
Definition derived_ok (m : metrics_rec) : Prop :=
  (0 < unique_views m →
     engagement_rate m = (inject_Z (likes m) / inject_Z (unique_views m))%Q
     ∧ avg_watch_time m = (total_watch_time m / inject_Z (unique_views m))%Q)
  ∧ (unique_views m = 0 →
     engagement_rate m = inject_Z 0 ∧ avg_watch_time m = inject_Z 0).

(** [timestamp.replace(minute=0, second=0, microsecond=0)] *)
Definition hour_start_of (timestamp : Z) : Z := 3600 * (timestamp / 3600).

(** The SELECT ... GROUP BY video_id of [process_hourly_aggregation] over
    the rows with hour_start <= event_timestamp < hour_end. *)
Definition hourly_query (raw : list raw_event) (hour_start hour_end : Z)
  : list df_row :=
  let rows := filter (λ e, (hour_start <=? ev_event_timestamp e)
                           && (ev_event_timestamp e <? hour_end)) raw in
  map (λ v,
         let g := filter (of_video v) rows in
         let views := filter (is_type "view") g in
         mk_df_row v
           (count_distinct (map ev_user_id views))
           (count_rows (filter (is_type "like") g))
           (sumQ (map (λ e, if is_type "view" e then ev_watch_time e
                            else inject_Z 0) g))
           (count_distinct (map ev_user_id g))
           (count_distinct (map ev_country_code g)))
      (group_keys rows).

Definition _process_aggregation_results (df : list df_row) (timestamp : Z)
  : gmap string agg_entry :=
  foldl (λ metrics row,
           <[df_video_id row :=
               mk_entry timestamp
                 (mk_metrics
                    (df_unique_views row)
                    (df_likes row)
                    (df_total_watch_time row)
                    (df_unique_users row)
                    (df_countries_reached row)
                    (if 0 <? df_unique_views row
                     then (inject_Z (df_likes row) / inject_Z (df_unique_views row))%Q
                     else inject_Z 0)
                    (if 0 <? df_unique_views row
                     then (df_total_watch_time row / inject_Z (df_unique_views row))%Q
                     else inject_Z 0))]> metrics)
        ∅ df.

Definition process_hourly_aggregation (raw : list raw_event) (timestamp : Z)
  : gmap string agg_entry :=
  let hour_start := hour_start_of timestamp in
  let hour_end := hour_start + 3600 in
  let df := hourly_query raw hour_start hour_end in
  _process_aggregation_results df hour_start.

Definition rows_to_insert (metrics : gmap string agg_entry) : list agg_row :=
  map (λ '(video_id, data),
         mk_row video_id (entry_timestamp data) (entry_metrics data))
      (map_to_list metrics).

Definition save_aggregations (table : list agg_row)
    (metrics : gmap string agg_entry) : outcome (list agg_row) :=
  let '(table', errors) := insert_rows_json table (rows_to_insert metrics) in
  match errors with
  | [] => Ret table'
  | _ => Raise BackendError
  end.

(** The rows of the aggregated table for one video and one bucket. *)
Definition rows_for (video_id : string) (bucket_start : Z)
    (table : list agg_row) : list agg_row :=
  filter (λ row, row_video_id row = video_id ∧ row_timestamp row = bucket_start)
         table.

(** One run of the rollup for the bucket of [timestamp]: aggregate, then
    save. *)
Definition run_rollup (raw : list raw_event) (timestamp : Z)
    (table : list agg_row) : outcome (list agg_row) :=
  save_aggregations table (process_hourly_aggregation raw timestamp).

(** [run_daily_cleanup]: DELETE the raw rows with
    event_timestamp < now - retention_days days. *)
Definition run_daily_cleanup (now : Z) (retention_days : Z)
    (raw : list raw_event) : list raw_event :=
  let retention_date := now - retention_days * 86400 in
  filter (λ e, negb (ev_event_timestamp e <? retention_date)) raw.

(** Two runs in a row for the same bucket over the same raw events. *)
Definition run_rollup_twice (raw : list raw_event) (timestamp : Z)
    (table : list agg_row) : outcome (list agg_row) :=
  table1 ← run_rollup raw timestamp table;
  run_rollup raw timestamp table1.

End BatchProcessor.

(* ===================================================================== *)
(** ** src/storage/bigquery_handler.py (the config-driven BatchProcessor) *)
(* ===================================================================== *)

Module BatchRollup.

Import BigQuery.

(** The values of a per-video metrics dictionary: counts, floats, and the
    two breakdown dictionaries. *)
Inductive val : Type :=
  | VInt (z : Z)
  | VFloat (q : Q)
  | VCounts (c : gmap string Z).

(** [col.value_counts().to_dict()] *)
Definition value_counts (l : list string) : gmap string Z :=
  foldr (λ x m, <[x := 1 + default 0 (m !! x)]> m) ∅ l.

Definition group_metrics (group : list raw_event) : gmap string val :=
  let views := filter (is_type "view") group in
  let unique_views := count_distinct (map ev_user_id views) in
  let likes := count_rows (filter (is_type "like") group) in
  let m : gmap string val :=
    <["unique_views" := VInt unique_views]>
    (<["likes" := VInt likes]>
    (<["total_watch_time" := VFloat (sumQ (map ev_watch_time views))]>
    (<["unique_users" := VInt (count_distinct (map ev_user_id group))]>
    (<["countries_reached" := VInt (count_distinct (map ev_country_code group))]>
    (<["device_breakdown" := VCounts (value_counts (map ev_device_type group))]>
    (<["quality_breakdown" := VCounts (value_counts (map ev_playback_quality group))]>
     ∅)))))) in
  if 0 <? unique_views
  then <["engagement_rate" := VFloat (inject_Z likes / inject_Z unique_views)%Q]> m
  else <["engagement_rate" := VInt 0]> m.

(** The keys of a per-video metrics dictionary. *)
Definition record_keys : gset string :=
  {[ "unique_views"; "likes"; "total_watch_time"; "unique_users";
     "countries_reached"; "device_breakdown"; "quality_breakdown";
     "engagement_rate" ]}.

Definition _aggregate_metrics (df : list raw_event)
  : gmap string (gmap string val) :=
  foldl (λ metrics video_id,
           <[video_id := group_metrics (filter (of_video video_id) df)]> metrics)
        ∅ (group_keys df).

(** A row of the aggregated table as this class writes it. *)
Record saved_row : Type := mk_saved {
  saved_video_id : string;
  saved_timestamp : Z;
  saved_metrics : gmap string val
}.

Definition _save_aggregated_metrics (table : list saved_row)
    (metrics : gmap string (gmap string val)) (timestamp : Z)
  : outcome (list saved_row) :=
  let rows_to_insert :=
    map (λ '(video_id, video_metrics),
           mk_saved video_id timestamp video_metrics)
        (map_to_list metrics) in
  let '(table', errors) := insert_rows_json table rows_to_insert in
  match errors with
  | [] => Ret table'
  | _ => Raise BackendError
  end.

(** [process_batch]: a missing [batch_timestamp] is the clock reading; the
    query keeps window_start <= event_timestamp <= batch_timestamp. *)
Definition process_batch (now : Z) (raw : list raw_event)
    (batch_timestamp : option Z) (table : list saved_row)
  : outcome (gmap string (gmap string val) * list saved_row) :=
  let batch_timestamp := default now batch_timestamp in
  let window_start := batch_timestamp - 3600 in
  let df := filter (λ e, (window_start <=? ev_event_timestamp e)
                         && (ev_event_timestamp e <=? batch_timestamp)) raw in
  match df with
  | [] => Ret (∅, table)
  | _ =>
      let aggregated_metrics := _aggregate_metrics df in
      table' ← _save_aggregated_metrics table aggregated_metrics batch_timestamp;
      Ret (aggregated_metrics, table')
  end.

End BatchRollup.

(* ===================================================================== *)
(** ** src/serving/api_server.py                                          *)
(* ===================================================================== *)

Module ApiServer.

Import BigQuery.

(** The response model [VideoMetrics].  Its float fields hold what the
    route puts there: SQL aggregates, which are rationals, on the
    historical route, and the result of [float()] on stored texts, which
    may be [nan] or an infinity, on the realtime route. *)
Record VideoMetrics_of (F : Type) : Type := mk_video_metrics {
  vm_video_id : string;
  vm_views : Z;
  vm_likes : Z;
  vm_watch_time : F;
  vm_unique_users : Z;
  vm_countries_reached : Z;
  vm_engagement_rate : F;
  vm_avg_watch_time : F
}.

Arguments mk_video_metrics {F} _ _ _ _ _ _ _ _.
Arguments vm_video_id {F} _.
Arguments vm_views {F} _.
Arguments vm_likes {F} _.
Arguments vm_watch_time {F} _.
Arguments vm_unique_users {F} _.
Arguments vm_countries_reached {F} _.
Arguments vm_engagement_rate {F} _.
Arguments vm_avg_watch_time {F} _.

Definition VideoMetrics : Type := VideoMetrics_of Q.

Record TimeRangeMetrics : Type := mk_time_range {
  tr_start_time : Z;
  tr_end_time : Z;
  tr_metrics : VideoMetrics
}.

(** [get_realtime_metrics]: the route reads the hash
    "video:<id>:metrics" straight from its own Redis client. *)
Definition realtime_key (video_id : string) : string :=
  "video:" +:+ video_id +:+ ":metrics".

Definition get_realtime_metrics_body (now : Z) (video_id : string)
    (r : Redis.server) : outcome (VideoMetrics_of pyfloat) :=
  let metrics_key := realtime_key video_id in
  cached_metrics ← Redis.hgetall now r metrics_key;
  if negb (truthy cached_metrics)
  then Raise (HTTPException 404 "Video metrics not found")
  else
    views ← int_get cached_metrics "views";
    likes ← int_get cached_metrics "likes";
    watch_time ← float_get cached_metrics "watch_time";
    unique_users ← int_get cached_metrics "unique_users";
    countries_reached ← int_get cached_metrics "countries_reached";
    engagement_rate ← float_get cached_metrics "engagement_rate";
    avg_watch_time ← float_get cached_metrics "avg_watch_time";
    Ret (mk_video_metrics video_id views likes watch_time unique_users
           countries_reached engagement_rate avg_watch_time).

(** The dictionary with the seven values of a [VideoMetrics]. *)
Definition as_dict (vm : VideoMetrics_of pyfloat) : gmap string pyval :=
  RedisCache.metrics_dict (vm_views vm) (vm_likes vm) (vm_watch_time vm)
    (vm_unique_users vm) (vm_countries_reached vm) (vm_engagement_rate vm)
    (vm_avg_watch_time vm).

Definition get_realtime_metrics (now : Z) (video_id : string)
    (r : Redis.server) : outcome (VideoMetrics_of pyfloat) :=
  try_except (get_realtime_metrics_body now video_id r)
    (λ _, Raise (HTTPException 500 "Internal server error")).

(** The rows the WHERE clause keeps: this video, and
    start_time <= timestamp <= end_time. *)
Definition rows_in_range (table : list BatchProcessor.agg_row)
    (video_id : string) (start_time end_time : Z)
  : list BatchProcessor.metrics_rec :=
  map BatchProcessor.row_metrics
    (filter (λ row, String.eqb (BatchProcessor.row_video_id row) video_id
                    && (start_time <=? BatchProcessor.row_timestamp row)
                    && (BatchProcessor.row_timestamp row <=? end_time))
            table).

(** The single row of SELECT ... GROUP BY video_id over those rows. *)
Definition historical_row (video_id : string)
    (rows : list BatchProcessor.metrics_rec) : VideoMetrics :=
  mk_video_metrics video_id
    (sumZ (map BatchProcessor.unique_views rows))
    (sumZ (map BatchProcessor.likes rows))
    (sumQ (map BatchProcessor.total_watch_time rows))
    (sumZ (map BatchProcessor.unique_users rows))
    (maxZ (map BatchProcessor.countries_reached rows))
    (avgQ (map BatchProcessor.engagement_rate rows))
    (avgQ (map BatchProcessor.avg_watch_time rows)).

Definition get_historical_metrics_body (table : list BatchProcessor.agg_row)
    (video_id : string) (start_time end_time : Z) : outcome TimeRangeMetrics :=
  let rows := rows_in_range table video_id start_time end_time in
  match rows with
  | [] => Raise (HTTPException 404 "No metrics found for the specified time range")
  | _ => Ret (mk_time_range start_time end_time (historical_row video_id rows))
  end.

(** The route wraps its whole body in [except Exception], which turns
    every exception into a 500. *)
Definition get_historical_metrics (table : list BatchProcessor.agg_row)
    (video_id : string) (start_time end_time : Z) : outcome TimeRangeMetrics :=
  try_except (get_historical_metrics_body table video_id start_time end_time)
    (λ _, Raise (HTTPException 500 "Internal server error")).

End ApiServer.

(* ===================================================================== *)
(** ** src/serving/metrics_service.py                                     *)
(* ===================================================================== *)

Module MetricsService.

Import Redis.

(** [BigQueryHandler.get_video_metrics(video_id, start_time, end_time,
    table)]: the sources call it but do not define it, so the service is
    parameterised by it.  It may raise; its value is a metrics dictionary,
    or [None]. *)
Definition bq_get_video_metrics : Type :=
  string → Z → Z → string → outcome (option (gmap string pyval)).

(** A [MetricsService] object: its cache, its optional handler, and the two
    table names it reads from its configuration (defaults 'raw_events' and
    'hourly_metrics'). *)
Record service : Type := mk_service {
  redis : RedisCache.config;
  bigquery : option bq_get_video_metrics;
  events_table : string;
  aggregated_table : string
}.

(** Truthiness of an optional dictionary. *)
Definition truthy_opt (m : option (gmap string pyval)) : bool :=
  match m with
  | Some d => truthy d
  | None => false
  end.

Definition not_found : exn := HTTPException 404 "Video metrics not found".
Definition internal_error : exn := HTTPException 500 "Internal server error".

(** The body of the [try] of [get_video_metrics]. *)
Definition get_video_metrics_body (self : service) (now : Z)
    (video_id : string) (r : server)
  : outcome (gmap string pyval) * server :=
  let metrics := RedisCache.get_video_metrics (redis self) now video_id r in
  if truthy_opt metrics then (Ret (default ∅ metrics), r)
  else
    match bigquery self with
    | Some bq =>
        let end_time := now in
        let start_time := end_time - 300 in
        match bq video_id start_time end_time (events_table self) with
        | Raise e => (Raise e, r)
        | Ret metrics =>
            if truthy_opt metrics
            then (Ret (default ∅ metrics),
                  snd (RedisCache.set_video_metrics (redis self) now
                         video_id (default ∅ metrics) None r))
            else (Raise not_found, r)
        end
    | None => (Raise not_found, r)
    end.

(** The single handler [except Exception] also catches the 404 raised in
    the body. *)
Definition get_video_metrics (self : service) (now : Z) (video_id : string)
    (r : server) : outcome (gmap string pyval) * server :=
  let '(res, r') := get_video_metrics_body self now video_id r in
  (try_except res (λ _, Raise internal_error), r').

(** [get_historical_metrics]: here [except HTTPException: raise] comes
    first, so the 404 reaches the caller. *)
Definition get_historical_metrics_body (self : service) (video_id : string)
    (start_time end_time : Z) : outcome (gmap string pyval) :=
  match bigquery self with
  | None => Raise (HTTPException 500 "BigQuery handler not configured")
  | Some bq =>
      metrics ← bq video_id start_time end_time (aggregated_table self);
      if truthy_opt metrics
      then Ret (default ∅ metrics)
      else Raise (HTTPException 404 "Historical metrics not found")
  end.

Definition get_historical_metrics (self : service) (video_id : string)
    (start_time end_time : Z) : outcome (gmap string pyval) :=
  try_except (get_historical_metrics_body self video_id start_time end_time)
    (λ e, if is_HTTPException e then Raise e else Raise internal_error).

(** [update_metrics]: a set under the default TTL. *)
Definition update_metrics (self : service) (now : Z) (video_id : string)
    (metrics : gmap string pyval) (r : server) : bool * server :=
  RedisCache.set_video_metrics (redis self) now video_id metrics None r.

(** *** Trending *)

Record trending_entry : Type := mk_trending {
  t_video_id : string;
  t_views : Z;
  t_likes : Z;
  t_engagement_rate : pyfloat
}.

(** [s.split(':')] *)
Fixpoint split_colon (s : string) : list string :=
  match s with
  | EmptyString => [EmptyString]
  | String a rest =>
      match split_colon rest with
      | [] => []
      | w :: ws =>
          if Ascii.eqb a ":"%char then EmptyString :: w :: ws
          else String a w :: ws
      end
  end.

(** [l[1]] *)
Definition index1 (l : list string) : outcome string :=
  match l with
  | _ :: x :: _ => Ret x
  | _ => Raise IndexError
  end.

(** The loop over [zip(video_keys, results)]: [results] holds the HGETALL
    reply for each key; an empty reply is skipped. *)
Fixpoint collect_videos (now : Z) (r : server) (video_keys : list string)
  : outcome (list trending_entry) :=
  match video_keys with
  | [] => Ret []
  | key :: rest =>
      let metrics := hgetall_fields now r key in
      if truthy metrics
      then
        video_id ← index1 (split_colon key);
        views ← int_get metrics "views";
        likes ← int_get metrics "likes";
        engagement_rate ← float_get metrics "engagement_rate";
        videos ← collect_videos now r rest;
        Ret (mk_trending video_id views likes engagement_rate :: videos)
      else collect_videos now r rest
  end.

(** The stable descending sort of keys that are totally ordered: entries
    with equal keys keep their relative order.  Every stable sort gives
    this list; this one inserts from the right, and like [list.sort] it
    compares with [<] only. *)
Fixpoint insert_desc (x : trending_entry) (l : list trending_entry)
  : list trending_entry :=
  match l with
  | [] => [x]
  | y :: rest =>
      if float_lt (t_engagement_rate x) (t_engagement_rate y)
      then y :: insert_desc x rest
      else x :: y :: rest
  end.

Definition stable_sort_desc (l : list trending_entry) : list trending_entry :=
  foldr insert_desc [] l.

(** The entries of [l] at the positions [positions], in that order. *)
Definition pick {A : Type} (positions : list nat) (l : list A) : list A :=
  omap (λ i, l !! i) positions.



(** [l[:limit]]: a negative limit counts from the end. *)
Definition slice_to {A : Type} (limit : Z) (l : list A) : list A :=
  if 0 <=? limit then take (Z.to_nat limit) l
  else take (Z.to_nat (Z.of_nat (length l) + limit)) l.

Section Trending.

(** What [list.sort] leaves when one of the keys is [nan].  Every
    comparison with [nan] is false, so the keys are not ordered and the
    outcome depends on how the sort detects runs and merges them; it is a
    rearrangement of the list that the sequence of keys determines.
    [nan_order keys] lists the positions of the input in the order of the
    output. *)
Variable nan_order : list pyfloat → list nat.

(** [videos.sort(key=lambda x: x['engagement_rate'], reverse=True)] *)
Definition sort_by_engagement (l : list trending_entry) : list trending_entry :=
  let keys := map t_engagement_rate l in
  if existsb is_nan keys then pick (nan_order keys) l
  else stable_sort_desc l.

(** [video_keys] is the reply of KEYS to the pattern
    "<prefix>video:*:metrics". *)
Definition get_trending_videos_body (now : Z) (r : server)
    (video_keys : list string) (limit : Z) : outcome (list trending_entry) :=
  if negb (up r) then Raise ConnectionError
  else
    match video_keys with
    | [] => Ret []
    | _ =>
        videos ← collect_videos now r video_keys;
        Ret (slice_to limit (sort_by_engagement videos))
    end.

Definition get_trending_videos (now : Z) (r : server)
    (video_keys : list string) (limit : Z) : outcome (list trending_entry) :=
  try_except (get_trending_videos_body now r video_keys limit)
    (λ _, Raise internal_error).

End Trending.

End MetricsService.

(* ===================================================================== *)
(** ** src/ingestion/event_validator.py                                   *)
(* ===================================================================== *)

Module EventValidator.

(** What [self.validator.validate(event)] can raise: a schema violation
    with its message, or any other exception with its message. *)
Inductive failure : Type :=
  | ValidationError (message : string)
  | OtherError (message : string).

Section Validator.

Context {Event : Type}.

(** The compiled jsonschema validator: [None] when the event conforms. *)
Variable validate : Event → option failure.

Definition validate_event (event : Event) : option string :=
  match validate event with
  | None => None
  | Some (ValidationError e) => Some ("Validation error: " +:+ e)
  | Some (OtherError e) => Some ("Unexpected error during validation: " +:+ e)
  end.

Definition is_valid (event : Event) : bool :=
  match validate_event event with
  | None => true
  | Some _ => false
  end.

(** The loop of [validate_batch], appending to one of the two lists. *)
Definition validate_batch (events : list Event)
  : list Event * list (Event * string) :=
  foldl (λ '(valid_events, invalid_events) event,
           match validate_event event with
           | None => (valid_events ++ [event], invalid_events)
           | Some error => (valid_events, invalid_events ++ [(event, error)])
           end)
        ([], []) events.

End Validator.

End EventValidator.

(* ===================================================================== *)
(** ** Concrete stores, records and tables used in the examples           *)
(* ===================================================================== *)

Module Examples.

Import Redis RedisCache.

Definition cfg : config := default_config.

(** A Metrics Record for ten views and two likes. *)
Definition record_v1 : gmap string pyval :=
  metrics_dict 10 2 (50 # 1) 4 1 (1 # 5) (5 # 1).

(** A reachable server holding one hash with the field views and a field
    that is not one of the seven. *)
Definition server_extra : server :=
  mk_server true
    {[ metrics_key cfg "v1" :=
         mk_hash {[ "views" := BInt 7; "region" := BText "eu" ]} None ]}
    ∅.

(** An unreachable server. *)
Definition server_down : server := mk_server false ∅ ∅.

(** The store after [set_video_metrics("v1", record_v1, ttl=0)] at instant
    100 on an empty server. *)
Definition server_ttl0 : server :=
  snd (set_video_metrics cfg 100 "v1" record_v1 (Some 0) empty_server).

(** The store after [increment_metrics("v1", {"views": 5})] at instant 100
    on an empty server. *)
Definition server_incr : server :=
  snd (increment_metrics cfg 100 "v1" {[ "views" := 5 ]} empty_server).

(** Events that carry nothing but a timestamp, serialised as its decimal
    text. *)
Definition ts_dumps (t : Z) : string := NilZero.string_of_int (Z.to_int t).
Definition ts_loads (s : string) : Z :=
  match NilZero.int_of_string s with
  | Some d => Z.of_int d
  | None => 0
  end.
Definition ts_timestamp (t : Z) : option Z := Some t.

(** [add_to_processing_window("v1", event, 300)] called at the instant the
    event carries. *)
Definition add_at (t : Z) (r : server) : server :=
  snd (add_to_processing_window ts_dumps ts_timestamp cfg t "v1" t 300 r).

Definition window_after_four : server :=
  add_at 400 (add_at 200 (add_at 100 (add_at 0 empty_server))).

(** Three cached videos with engagement rates 0.5, 0.9, 0.9 and views
    10, 5, 8. *)
Definition put (video_id : string) (views : Z) (rate : pyfloat) (r : server)
  : server :=
  snd (set_video_metrics cfg 0 video_id
         (metrics_dict views 0 (inject_Z 0) 0 0 rate (inject_Z 0)) None r).

Definition server_three : server :=
  put "v3" 8 (9 # 10) (put "v2" 5 (9 # 10) (put "v1" 10 (1 # 2) empty_server)).


(** A sort that moves nothing.  It is what [list.sort(reverse=True)] does
    to the keys 0.5, nan, 0.9: no comparison with nan holds, so the list
    counts as one run that is in order already. *)
Definition order_kept (keys : list pyfloat) : list nat :=
  seq 0 (length keys).


(** Raw events of one bucket: a view and a like for v1, a view for v2. *)
Definition raw_events : list BigQuery.raw_event :=
  [ BigQuery.mk_raw "v1" 10 "view" "u1" (30 # 1) "US" "tv" "hd";
    BigQuery.mk_raw "v1" 20 "like" "u1" (inject_Z 0) "US" "tv" "hd";
    BigQuery.mk_raw "v2" 20 "view" "u2" (5 # 1) "DE" "phone" "sd" ].

(** A single view event with 30 seconds of watch time. *)
Definition one_view : list BigQuery.raw_event :=
  [ BigQuery.mk_raw "v1" 10 "view" "u1" (30 # 1) "US" "tv" "hd" ].

(** Two hourly buckets of v1 whose per-bucket engagement rates agree:
    {views 10, likes 2} and {views 5, likes 1}. *)
Definition table_equal_rates : list BatchProcessor.agg_row :=
  [ BatchProcessor.mk_row "v1" 0
      (BatchProcessor.mk_metrics 10 2 (100 # 1) 10 1 (1 # 5) (10 # 1));
    BatchProcessor.mk_row "v1" 3600
      (BatchProcessor.mk_metrics 5 1 (50 # 1) 5 1 (1 # 5) (10 # 1)) ].

(** Two hourly buckets of v1 whose rates differ: {views 10, likes 2} and
    {views 5, likes 2}. *)
Definition table_skewed : list BatchProcessor.agg_row :=
  [ BatchProcessor.mk_row "v1" 0
      (BatchProcessor.mk_metrics 10 2 (100 # 1) 10 1 (1 # 5) (10 # 1));
    BatchProcessor.mk_row "v1" 3600
      (BatchProcessor.mk_metrics 5 2 (50 # 1) 5 1 (2 # 5) (10 # 1)) ].

Definition historical_equal_rates : ApiServer.TimeRangeMetrics :=
  ApiServer.mk_time_range 0 3600
    (ApiServer.historical_row "v1"
       (ApiServer.rows_in_range table_equal_rates "v1" 0 3600)).

(** A durable store that has no rows for any video, and one that returns
    [record_v1] for every query. *)
Definition bq_no_rows : MetricsService.bq_get_video_metrics :=
  λ _ _ _ _, Ret None.
Definition bq_record_v1 : MetricsService.bq_get_video_metrics :=
  λ _ _ _ _, Ret (Some record_v1).

Definition service_no_rows : MetricsService.service :=
  MetricsService.mk_service cfg (Some bq_no_rows) "raw_events" "hourly_metrics".
Definition service_record_v1 : MetricsService.service :=
  MetricsService.mk_service cfg (Some bq_record_v1) "raw_events" "hourly_metrics".

(** A live hash whose views field holds a float text. *)
Definition server_corrupt : server :=
  mk_server true
    {[ metrics_key cfg "v1" :=
         mk_hash {[ "views" := BFloat (3 # 2); "likes" := BInt 1 ]} None ]}
    ∅.

(** A batch of timestamp-only events, written as their decimal texts
    separated by colons. *)
Definition batch_dumps (events : list Z) : string :=
  String.concat ":" (map ts_dumps events).
Definition batch_loads (payload : string) : list Z :=
  map ts_loads (MetricsService.split_colon payload).

(** The store after [set_video_metrics("v1", record_v1)] at instant 100 on
    an empty server, and a service without a BigQuery handler. *)
Definition server_v1 : server :=
  snd (set_video_metrics cfg 100 "v1" record_v1 None empty_server).

Definition service_no_handler : MetricsService.service :=
  MetricsService.mk_service cfg None "raw_events" "hourly_metrics".

(** One row of an hourly data frame: 4 distinct viewers, 2 likes, 50
    seconds watched. *)
Definition df_one : list BatchProcessor.df_row :=
  [ BatchProcessor.mk_df_row "v1" 4 2 (50 # 1) 5 2 ].

(** A cache configured without a key prefix. *)
Definition cfg_bare : config := mk_config "" 3600.

Definition server_bare : server :=
  snd (set_video_metrics cfg_bare 100 "v1" record_v1 None empty_server).

End Examples.

(* ===================================================================== *)
(** * Properties                                                          *)
(* ===================================================================== *)

(** A closed equation is settled by evaluating both sides on the virtual
    machine; the kernel re-runs the evaluation when the proof is saved. *)
Ltac by_evaluation :=
  match goal with
  | |- _ = ?rhs => vm_cast_no_check (@eq_refl _ rhs)
  end.

(** ** The cache store: get                                               *)

Section cache_facts.

Import Redis RedisCache.
Implicit Types (self : config) (r : server) (h : gmap string rbytes).

Lemma get_of_fields self t vid r v l w u c e a :
  up r = true →
  hgetall_fields t r (metrics_key self vid) ≠ ∅ →
  int_get (hgetall_fields t r (metrics_key self vid)) "views" = Ret v →
  int_get (hgetall_fields t r (metrics_key self vid)) "likes" = Ret l →
  float_get (hgetall_fields t r (metrics_key self vid)) "watch_time" = Ret w →
  int_get (hgetall_fields t r (metrics_key self vid)) "unique_users" = Ret u →
  int_get (hgetall_fields t r (metrics_key self vid)) "countries_reached" = Ret c →
  float_get (hgetall_fields t r (metrics_key self vid)) "engagement_rate" = Ret e →
  float_get (hgetall_fields t r (metrics_key self vid)) "avg_watch_time" = Ret a →
  get_video_metrics self t vid r = Some (metrics_dict v l w u c e a).
Proof.
  intros Hup Hne E1 E2 E3 E4 E5 E6 E7.
  unfold get_video_metrics, get_video_metrics_body, hgetall.
  rewrite Hup. simpl. unfold truthy. rewrite bool_decide_eq_false_2 by done.
  simpl. unfold mbind, outcome_bind.
  rewrite E1; simpl. rewrite E2; simpl. rewrite E3; simpl. rewrite E4; simpl.
  rewrite E5; simpl. rewrite E6; simpl. rewrite E7; simpl. done.
Qed.

Lemma get_miss self t vid r :
  hgetall_fields t r (metrics_key self vid) = ∅ →
  get_video_metrics self t vid r = None.
Proof.
  intros H. unfold get_video_metrics, get_video_metrics_body, hgetall.
  destruct (up r); [|done]. simpl. rewrite H. done.
Qed.

Lemma get_down self t vid r : up r = false → get_video_metrics self t vid r = None.
Proof.
  intros H. unfold get_video_metrics, get_video_metrics_body, hgetall.
  by rewrite H.
Qed.

Lemma live_entry_hmset now key mapping r :
  live_entry now (hmset now key mapping r) key =
  Some (match live_entry now r key with
        | Some e => mk_hash (mapping ∪ fields e) (expiry e)
        | None => mk_hash mapping None
        end).
Proof.
  unfold live_entry at 1. unfold hmset. simpl. rewrite lookup_insert_eq.
  destruct (live_entry now r key) as [e|] eqn:E; simpl; [|done].
  unfold live_entry in E. destruct (hashes r !! key) as [e0|]; [|done].
  destruct (expired now e0) eqn:X; [done|]. inversion E; subst.
  unfold expired in *. simpl. by rewrite X.
Qed.

Lemma str_metrics_dict_nonempty v l w u c e a :
  str <$> metrics_dict v l w u c e a ≠ ∅.
Proof.
  intros H. apply (f_equal (λ m, m !! "views")) in H.
  rewrite lookup_fmap in H. unfold metrics_dict in H. by simplify_map_eq.
Qed.


Lemma hashes_after_set self now vid m ttl r :
  up r = true → str <$> m ≠ ∅ →
  set_video_metrics self now vid m ttl r =
    (true, expire now (metrics_key self vid) (effective_ttl self ttl)
             (hmset now (metrics_key self vid) (str <$> m) r)).
Proof.
  intros Hup Hne. unfold set_video_metrics, set_video_metrics_body.
  unfold truthy. rewrite bool_decide_eq_false_2 by done. by rewrite Hup.
Qed.

Lemma lookup_after_set_expire now key ms s r :
  hashes (expire now key s (hmset now key ms r)) !! key =
  if 0 <? s
  then Some (mk_hash (ms ∪ hgetall_fields now r key) (Some (now + s)))
  else None.
Proof.
  unfold expire. rewrite live_entry_hmset. unfold hgetall_fields.
  destruct (0 <? s); simpl.
  - rewrite lookup_insert_eq. destruct (live_entry now r key); simpl; [done|].
    by rewrite (right_id_L ∅ (∪)).
  - by rewrite lookup_delete_eq.
Qed.

Lemma up_after_set_expire now key ms s r :
  up (expire now key s (hmset now key ms r)) = up r.
Proof.
  unfold expire. rewrite live_entry_hmset. by destruct (0 <? s).
Qed.

Lemma lookup_str_metrics_dict v l w u c e a old :
  let h := (str <$> metrics_dict v l w u c e a) ∪ old in
  int_get h "views" = Ret v ∧ int_get h "likes" = Ret l ∧
  float_get h "watch_time" = Ret w ∧ int_get h "unique_users" = Ret u ∧
  int_get h "countries_reached" = Ret c ∧
  float_get h "engagement_rate" = Ret e ∧
  float_get h "avg_watch_time" = Ret a.
Proof.
  intros h. unfold int_get, float_get, h.
  repeat split;
    (erewrite lookup_union_Some_l;
     [ | rewrite lookup_fmap; unfold metrics_dict; simplify_map_eq; reflexivity ];
     reflexivity).
Qed.

Lemma set_then_get_general self now vid v l w u c e a ttl r t :
  up r = true → now <= t →
  let m := metrics_dict v l w u c e a in
  let res := set_video_metrics self now vid m ttl r in
  fst res = true ∧
  (t < now + effective_ttl self ttl →
     get_video_metrics self t vid (snd res) = Some m) ∧
  (now + effective_ttl self ttl < t →
     get_video_metrics self t vid (snd res) = None).
Proof.
  intros Hup Hle m res. unfold res.
  rewrite hashes_after_set; [ | done | apply str_metrics_dict_nonempty ].
  simpl. split; [done|].
  set (key := metrics_key self vid). set (s := effective_ttl self ttl).
  set (r' := expire now key s (hmset now key (str <$> m) r)).
  assert (Hl : hashes r' !! key =
     if 0 <? s then Some (mk_hash ((str <$> m) ∪ hgetall_fields now r key) (Some (now + s))) else None)
    by apply lookup_after_set_expire.
  assert (Hup' : up r' = true) by (unfold r'; by rewrite up_after_set_expire).
  split; intros Ht.
  - assert (Hs : (0 <? s) = true) by (apply Z.ltb_lt; lia). rewrite Hs in Hl.
    assert (Hf : hgetall_fields t r' (metrics_key self vid) =
                 (str <$> m) ∪ hgetall_fields now r key).
    { unfold hgetall_fields at 1, live_entry. fold key. rewrite Hl.
      unfold expired. simpl.
      replace (now + s <? t) with false by (symmetry; apply Z.ltb_ge; lia).
      done. }
    pose proof (lookup_str_metrics_dict v l w u c e a (hgetall_fields now r key))
      as (E1 & E2 & E3 & E4 & E5 & E6 & E7).
    apply get_of_fields; rewrite ?Hf; try done.
    intros Hemp.
    assert (Hv : ((str <$> m) ∪ hgetall_fields now r key) !! "views"
                 = Some (BInt v)).
    { apply lookup_union_Some_l. rewrite lookup_fmap.
      unfold m, metrics_dict. by simplify_map_eq. }
    by rewrite Hemp in Hv.
  - apply get_miss. unfold hgetall_fields, live_entry. fold key. rewrite Hl.
    destruct (0 <? s); [|done]. unfold expired. simpl.
    replace (now + s <? t) with true by (symmetry; apply Z.ltb_lt; lia). done.
Qed.

Lemma dom_metrics_dict v l w u c e a :
  dom (metrics_dict v l w u c e a) = metric_fields.
Proof.
  unfold metrics_dict, metric_fields, int_fields, float_fields.
  rewrite !dom_insert_L, dom_empty_L. set_solver.
Qed.

Lemma get_hit_inv self now vid r d :
  get_video_metrics self now vid r = Some d →
  up r = true ∧ hgetall_fields now r (metrics_key self vid) ≠ ∅ ∧
  ∃ v l w u c e a,
    int_get (hgetall_fields now r (metrics_key self vid)) "views" = Ret v ∧
    int_get (hgetall_fields now r (metrics_key self vid)) "likes" = Ret l ∧
    float_get (hgetall_fields now r (metrics_key self vid)) "watch_time" = Ret w ∧
    int_get (hgetall_fields now r (metrics_key self vid)) "unique_users" = Ret u ∧
    int_get (hgetall_fields now r (metrics_key self vid)) "countries_reached" = Ret c ∧
    float_get (hgetall_fields now r (metrics_key self vid)) "engagement_rate" = Ret e ∧
    float_get (hgetall_fields now r (metrics_key self vid)) "avg_watch_time" = Ret a ∧
    d = metrics_dict v l w u c e a.
Proof.
  intros H. unfold get_video_metrics, get_video_metrics_body, hgetall in H.
  destruct (up r) eqn:Hup; [|done]. simpl in H.
  set (h := hgetall_fields now r (metrics_key self vid)) in *.
  unfold truthy in H. case_bool_decide as He; simpl in H; [done|].
  unfold mbind, outcome_bind in H.
  destruct (int_get h "views") as [v|] eqn:E1; simpl in H; [|done].
  destruct (int_get h "likes") as [l|] eqn:E2; simpl in H; [|done].
  destruct (float_get h "watch_time") as [w|] eqn:E3; simpl in H; [|done].
  destruct (int_get h "unique_users") as [u|] eqn:E4; simpl in H; [|done].
  destruct (int_get h "countries_reached") as [c|] eqn:E5; simpl in H; [|done].
  destruct (float_get h "engagement_rate") as [e|] eqn:E6; simpl in H; [|done].
  destruct (float_get h "avg_watch_time") as [a|] eqn:E7; simpl in H; [|done].
  inversion H; subst. repeat split; try done. by exists v, l, w, u, c, e, a.
Qed.

End cache_facts.

(** C10.  A successful cache get returns a dictionary whose keys are exactly
    views, likes, watch_time, unique_users, countries_reached,
    engagement_rate and avg_watch_time.  A field the stored hash lacks is
    reported as 0; a field it holds is reported as its parsed value; a
    stored field outside the seven does not appear in the result. *)
Theorem get_returns_seven_fields (self : RedisCache.config) (now : Z)
    (vid : string) (r : Redis.server) (d : gmap string pyval) :
  RedisCache.get_video_metrics self now vid r = Some d →
  let h := Redis.hgetall_fields now r (RedisCache.metrics_key self vid) in
  dom d = RedisCache.metric_fields
  ∧ (∀ k, k ∉ RedisCache.metric_fields → d !! k = None)
  ∧ (∀ k, k ∈ RedisCache.int_fields → h !! k = None → d !! k = Some (PInt 0))
  ∧ (∀ k, k ∈ RedisCache.float_fields → h !! k = None →
          d !! k = Some (PFloat (inject_Z 0)))
  ∧ (∀ k b, k ∈ RedisCache.int_fields → h !! k = Some b →
          ∃ z, int b = Ret z ∧ d !! k = Some (PInt z))
  ∧ (∀ k b, k ∈ RedisCache.float_fields → h !! k = Some b →
          ∃ q, float b = Ret q ∧ d !! k = Some (PFloat q)).
Proof.
  intros H h.
  destruct (get_hit_inv _ _ _ _ _ H)
    as (_ & _ & v & l & w & u & c & e & a & E1 & E2 & E3 & E4 & E5 & E6 & E7 & ->).
  fold h in E1, E2, E3, E4, E5, E6, E7.
  split; [apply dom_metrics_dict|].
  split.
  { intros k Hk. apply not_elem_of_dom. by rewrite dom_metrics_dict. }
  unfold RedisCache.int_fields, RedisCache.float_fields.
  unfold int_get in E1, E2, E4, E5. unfold float_get in E3, E6, E7.
  unfold RedisCache.metrics_dict.
  repeat split.
  - intros k Hk Hn.
    rewrite !elem_of_union, !elem_of_singleton in Hk.
    destruct Hk as [[[-> | ->] | ->] | ->]; rewrite Hn in *;
      simplify_map_eq; congruence.
  - intros k Hk Hn.
    rewrite !elem_of_union, !elem_of_singleton in Hk.
    destruct Hk as [[-> | ->] | ->]; rewrite Hn in *;
      simplify_map_eq; congruence.
  - intros k b Hk Hs.
    rewrite !elem_of_union, !elem_of_singleton in Hk.
    destruct Hk as [[[-> | ->] | ->] | ->]; rewrite Hs in *;
      eexists; (split; [eassumption|]); by simplify_map_eq.
  - intros k b Hk Hs.
    rewrite !elem_of_union, !elem_of_singleton in Hk.
    destruct Hk as [[-> | ->] | ->]; rewrite Hs in *;
      eexists; (split; [eassumption|]); by simplify_map_eq.
Qed.

Lemma get_returns_seven_fields_witness :
  dom (RedisCache.metrics_dict 7 0 (inject_Z 0) 0 0 (inject_Z 0) (inject_Z 0))
  = RedisCache.metric_fields.
Proof.
  refine (proj1 (get_returns_seven_fields Examples.cfg 5 "v1"
                   Examples.server_extra _ _)).
  by_evaluation.
Defined.

(** ** The cache store: set, failure, increment                           *)

(** C6 (amended).  For every video id, Metrics Record and ttl, on a
    reachable backend: a set succeeds, a get before the effective TTL has
    run out returns the written record unchanged, and a get after it has
    run out returns a miss, where the effective TTL is the given ttl, or
    the default TTL when the ttl is omitted or 0.  A get for an absent key
    is a miss. *)
Theorem cache_set_get_ttl (self : RedisCache.config) (now : Z) (vid : string)
    (v l : Z) (w : Q) (u c : Z) (e a : Q) (ttl : option Z)
    (r : Redis.server) (t : Z) :
  Redis.up r = true → now <= t →
  let m := RedisCache.metrics_dict v l w u c e a in
  let res := RedisCache.set_video_metrics self now vid m ttl r in
  fst res = true
  ∧ (t < now + RedisCache.effective_ttl self ttl →
       RedisCache.get_video_metrics self t vid (snd res) = Some m)
  ∧ (now + RedisCache.effective_ttl self ttl < t →
       RedisCache.get_video_metrics self t vid (snd res) = None)
  ∧ (∀ vid', Redis.hashes r !! RedisCache.metrics_key self vid' = None →
       RedisCache.get_video_metrics self t vid' r = None).
Proof.
  intros Hup Hle m res.
  destruct (set_then_get_general self now vid v l w u c e a ttl r t Hup Hle)
    as (H1 & H2 & H3).
  repeat split; try assumption.
  intros vid' Habs. apply get_miss.
  unfold Redis.hgetall_fields, Redis.live_entry. by rewrite Habs.
Qed.

Lemma cache_set_get_ttl_witness :
  RedisCache.get_video_metrics Examples.cfg 120 "v1"
    (snd (RedisCache.set_video_metrics Examples.cfg 100 "v1"
            Examples.record_v1 (Some 60) Redis.empty_server))
  = Some Examples.record_v1.
Proof.
  refine (proj1 (proj2 (cache_set_get_ttl Examples.cfg 100 "v1"
            10 2 (50 # 1) 4 1 (1 # 5) (5 # 1) (Some 60)
            Redis.empty_server 120 _ _)) _).
  - reflexivity.
  - lia.
  - vm_compute. reflexivity.
Defined.

(** C6 as stated fails for ttl = 0: [ttl or self.default_ttl] replaces it
    by the default of 3600, so one second after a TTL of 0 has run out the
    get still returns the record and not a miss. *)
Lemma cache_ttl_zero_counterexample :
  100 + 0 < 101
  ∧ RedisCache.get_video_metrics Examples.cfg 101 "v1" Examples.server_ttl0
    = Some Examples.record_v1
  ∧ RedisCache.get_video_metrics Examples.cfg 101 "v1" Examples.server_ttl0
    ≠ None.
Proof.
  assert (H : RedisCache.get_video_metrics Examples.cfg 101 "v1"
                Examples.server_ttl0 = Some Examples.record_v1)
    by by_evaluation.
  split; [lia|]. split; [exact H|]. rewrite H. discriminate.
Qed.

Section cache_failure.

Import Redis RedisCache.

Lemma set_down self now vid m ttl r :
  up r = false → set_video_metrics self now vid m ttl r = (false, r).
Proof.
  intros H. unfold set_video_metrics, set_video_metrics_body.
  destruct (negb (truthy (str <$> m))); [done|]. by rewrite H.
Qed.

Lemma increment_down self now vid incs r :
  up r = false → increment_metrics self now vid incs r = (false, r).
Proof. intros H. unfold increment_metrics. by rewrite H. Qed.

End cache_failure.

(** C7 (amended).  On a backend I/O failure, get returns [None], the very
    value it returns for a key that is absent or expired; set and
    increment return [False] and leave the store as it was. *)
Theorem backend_failure_results (self : RedisCache.config) (now : Z)
    (vid : string) (m : gmap string pyval) (ttl : option Z)
    (incs : gmap string Z) (r : Redis.server) :
  Redis.up r = false →
  RedisCache.get_video_metrics self now vid r = None
  ∧ (∀ r0, Redis.hgetall_fields now r0 (RedisCache.metrics_key self vid) = ∅ →
       RedisCache.get_video_metrics self now vid r0
       = RedisCache.get_video_metrics self now vid r)
  ∧ RedisCache.set_video_metrics self now vid m ttl r = (false, r)
  ∧ RedisCache.increment_metrics self now vid incs r = (false, r).
Proof.
  intros H. repeat split.
  - by apply get_down.
  - intros r0 H0. rewrite (get_down _ _ _ _ H). by apply get_miss.
  - by apply set_down.
  - by apply increment_down.
Qed.

Lemma backend_failure_results_witness :
  RedisCache.get_video_metrics Examples.cfg 0 "v1" Examples.server_down = None.
Proof.
  refine (proj1 (backend_failure_results Examples.cfg 0 "v1"
                   Examples.record_v1 None ∅ Examples.server_down _)).
  reflexivity.
Defined.

(** C7 as stated fails for get: the result on an unreachable backend and
    the result for an absent key on a reachable one are the same value. *)
Lemma get_failure_is_miss_counterexample :
  Redis.up Examples.server_down = false
  ∧ Redis.up Redis.empty_server = true
  ∧ RedisCache.get_video_metrics Examples.cfg 0 "v1" Examples.server_down
    = RedisCache.get_video_metrics Examples.cfg 0 "v1" Redis.empty_server.
Proof.
  split; [reflexivity|]. split; [reflexivity|].
  transitivity (@None (gmap string pyval)); [|symmetry]; by_evaluation.
Qed.

Section cache_increment.

Import Redis RedisCache.

Lemma increment_single self now vid field delta r :
  up r = true →
  increment_metrics self now vid {[ field := delta ]} r =
  (snd (hincrby now (metrics_key self vid) field delta r),
   fst (hincrby now (metrics_key self vid) field delta r)).
Proof.
  intros Hup. unfold increment_metrics. rewrite Hup. simpl.
  unfold increment_all. rewrite map_fold_singleton. simpl.
  destruct (hincrby now (metrics_key self vid) field delta r) as [r1 ok].
  simpl. by rewrite andb_true_r.
Qed.

(** The cases of [hincrby_value]. *)
Lemma hincrby_value_missing delta :
  in_int64 delta = true → hincrby_value None delta = Some delta.
Proof. intros H. unfold hincrby_value. by rewrite H. Qed.

Lemma hincrby_value_int z delta :
  in_int64 delta = true → in_int64 z = true → in_int64 (z + delta) = true →
  hincrby_value (Some (BInt z)) delta = Some (z + delta).
Proof. intros H1 H2 H3. unfold hincrby_value. by rewrite H1, H2, H3. Qed.

Lemma hincrby_value_out_of_range old delta :
  in_int64 delta = false → hincrby_value old delta = None.
Proof. intros H. unfold hincrby_value. by rewrite H. Qed.

Lemma hincrby_value_overflow z delta :
  in_int64 (z + delta) = false → hincrby_value (Some (BInt z)) delta = None.
Proof.
  intros H. unfold hincrby_value. rewrite H, andb_false_r.
  by destruct (negb (in_int64 delta)).
Qed.

Lemma hincrby_value_inv old delta v :
  hincrby_value old delta = Some v →
  in_int64 delta = true
  ∧ ((old = None ∧ v = delta)
     ∨ ∃ z, old = Some (BInt z) ∧ in_int64 z = true
            ∧ in_int64 v = true ∧ v = z + delta).
Proof.
  unfold hincrby_value. destruct (in_int64 delta); [|done]. simpl.
  destruct old as [[z|z0|x|s]|]; try done.
  - destruct (in_int64 z) eqn:Hz; [|done].
    destruct (in_int64 (z + delta)) eqn:Hs; [|done]. simpl.
    intros [= <-]. split; [done|]. right. by exists z.
  - intros [= <-]. split; [done|]. by left.
Qed.

Lemma live_entry_stored now r key e :
  live_entry now r key = Some e → hashes r !! key = Some e.
Proof.
  unfold live_entry. destruct (hashes r !! key) as [e0|]; [|done].
  by destruct (expired now e0); intros [= ->].
Qed.

(** HINCRBY on a live key: an accepted command rewrites the one field, a
    refused one changes nothing. *)
Lemma hincrby_live now key field delta r e :
  live_entry now r key = Some e →
  hincrby now key field delta r =
  match hincrby_value (fields e !! field) delta with
  | Some v =>
      (mk_server (up r)
         (<[key := mk_hash (<[field := BInt v]> (fields e)) (expiry e)]>
            (hashes r))
         (zsets r), true)
  | None => (r, false)
  end.
Proof. intros Hl. unfold hincrby. by rewrite Hl. Qed.

(** HINCRBY on a key that is absent or expired: a fresh hash with the one
    field and no expiry, unless the increment is out of range. *)
Lemma hincrby_absent now key field delta r :
  live_entry now r key = None →
  hincrby now key field delta r =
  if in_int64 delta
  then (mk_server (up r)
          (<[key := mk_hash {[ field := BInt delta ]} None]> (hashes r))
          (zsets r), true)
  else (r, false).
Proof.
  intros Hl. unfold hincrby. rewrite Hl. simpl. rewrite lookup_empty.
  unfold hincrby_value. destruct (in_int64 delta); simpl; [|done].
  by rewrite insert_empty.
Qed.

Lemma hincrby_other_keys now key field delta r k :
  k ≠ key → hashes (fst (hincrby now key field delta r)) !! k = hashes r !! k.
Proof.
  intros Hne. unfold hincrby.
  destruct (hincrby_value _ delta); simpl; [|done].
  by rewrite lookup_insert_ne.
Qed.

End cache_increment.

(** C8 (amended).  On a reachable backend, incrementing one field of an
    existing entry by delta leaves the entry's expiry and every other field
    as they were.  When delta, the integer the field holds (0 for a field
    the entry lacks) and their sum all fit in a signed 64-bit integer, the
    call succeeds and the field holds the sum.  When delta does not fit,
    or the field holds an integer that does not fit or whose sum with
    delta does not, or the field holds a text that is no integer, the
    call returns False; and whenever the call returns False the entry is
    exactly as it was.  Other entries are untouched.  If the entry is
    absent, increment creates it, for a delta that fits in 64 bits, with
    delta as the value of that field and with no expiry at all; for a
    delta that does not fit it returns False and creates nothing. *)
Theorem increment_frame (self : RedisCache.config) (now : Z) (vid field : string)
    (delta : Z) (r : Redis.server) :
  Redis.up r = true →
  let key := RedisCache.metrics_key self vid in
  let res := RedisCache.increment_metrics self now vid {[ field := delta ]} r in
  (∀ e, Redis.live_entry now r key = Some e →
     ∃ e', Redis.hashes (snd res) !! key = Some e'
           ∧ Redis.expiry e' = Redis.expiry e
           ∧ (∀ f, f ≠ field → Redis.fields e' !! f = Redis.fields e !! f)
           ∧ (∀ z, Redis.fields e !! field = Some (BInt z) →
                   Redis.in_int64 delta = true → Redis.in_int64 z = true →
                   Redis.in_int64 (z + delta) = true →
                   fst res = true
                   ∧ Redis.fields e' !! field = Some (BInt (z + delta)))
           ∧ (Redis.fields e !! field = None →
                   Redis.in_int64 delta = true →
                   fst res = true
                   ∧ Redis.fields e' !! field = Some (BInt delta))
           ∧ (Redis.in_int64 delta = false → fst res = false)
           ∧ (∀ z, Redis.fields e !! field = Some (BInt z) →
                   Redis.in_int64 z = false
                   ∨ Redis.in_int64 (z + delta) = false →
                   fst res = false)
           ∧ (∀ b, Redis.fields e !! field = Some b → (∀ z, b ≠ BInt z) →
                   fst res = false)
           ∧ (fst res = false → e' = e))
  ∧ (Redis.live_entry now r key = None → Redis.in_int64 delta = true →
       fst res = true
       ∧ Redis.hashes (snd res) !! key
         = Some (Redis.mk_hash {[ field := BInt delta ]} None))
  ∧ (Redis.live_entry now r key = None → Redis.in_int64 delta = false →
       res = (false, r))
  ∧ (∀ k, k ≠ key → Redis.hashes (snd res) !! k = Redis.hashes r !! k).
Proof.
  intros Hup key res. unfold res. rewrite increment_single by done.
  fold key. cbn [fst snd].
  split; [|split; [|split]].
  - intros e He. rewrite (hincrby_live _ _ _ _ _ _ He).
    pose proof (live_entry_stored _ _ _ _ He) as Hst.
    destruct (Redis.hincrby_value (Redis.fields e !! field) delta) as [v|] eqn:Hv.
    + exists (Redis.mk_hash (<[field := BInt v]> (Redis.fields e))
                (Redis.expiry e)).
      cbn [fst snd Redis.hashes Redis.fields Redis.expiry].
      destruct (hincrby_value_inv _ _ _ Hv) as [Hd Hcases].
      split; [by rewrite lookup_insert_eq|]. split; [done|].
      split; [intros f Hne; by rewrite lookup_insert_ne|].
      split; [|split; [|split; [|split; [|split]]]].
      * intros z Hz _ _ _. split; [done|]. rewrite lookup_insert_eq.
        destruct Hcases as [[Hn _] | (z' & Hz' & _ & _ & ->)]; congruence.
      * intros Hn _. split; [done|]. rewrite lookup_insert_eq.
        destruct Hcases as [[_ ->] | (z' & Hz' & _)]; congruence.
      * congruence.
      * intros z Hz Hbad.
        destruct Hcases as [[Hn _] | (z' & Hz' & Hin' & Hin & ->)];
          [congruence|].
        assert (z' = z) as -> by congruence. destruct Hbad; congruence.
      * intros b Hb Hnot.
        destruct Hcases as [[Hn _] | (z' & Hz' & _)]; [congruence|].
        destruct (Hnot z'). congruence.
      * done.
    + exists e. cbn [fst snd].
      split; [done|]. split; [done|]. split; [done|].
      split; [|split; [|split; [|split; [|split]]]]; try done.
      * intros z Hz Hd Hz' Hs.
        rewrite Hz, hincrby_value_int in Hv by done. discriminate.
      * intros Hn Hd. rewrite Hn, hincrby_value_missing in Hv by done.
        discriminate.
  - intros Hn Hd. rewrite hincrby_absent, Hd by done.
    cbn [fst snd Redis.hashes]. by rewrite lookup_insert_eq.
  - intros Hn Hd. by rewrite hincrby_absent, Hd.
  - intros k Hk. by apply hincrby_other_keys.
Qed.

Lemma increment_frame_witness :
  Redis.hashes Examples.server_incr !! RedisCache.metrics_key Examples.cfg "v1"
  = Some (Redis.mk_hash {[ "views" := BInt 5 ]} None).
Proof.
  refine (proj2 (proj1 (proj2 (increment_frame Examples.cfg 100 "v1" "views" 5
                                 Redis.empty_server _)) _ _)).
  - reflexivity.
  - by_evaluation.
  - reflexivity.
Defined.

(** C8 as stated fails for an absent entry in two ways.  The entry that
    increment creates carries no expiry, not the default TTL, and a get
    long after the default TTL has run out still finds it.  And a delta of
    2^63 creates no entry at all: the call returns False and the store
    stays empty. *)
Lemma increment_no_ttl_counterexample :
  Redis.expiry <$> (Redis.hashes Examples.server_incr
                      !! RedisCache.metrics_key Examples.cfg "v1")
  = Some None
  ∧ Redis.expiry <$> (Redis.hashes Examples.server_incr
                        !! RedisCache.metrics_key Examples.cfg "v1")
    ≠ Some (Some (100 + RedisCache.default_ttl Examples.cfg))
  ∧ RedisCache.get_video_metrics Examples.cfg (100 + 2 * 3600) "v1"
      Examples.server_incr ≠ None
  ∧ RedisCache.increment_metrics Examples.cfg 100 "v1"
      {[ "views" := 2 ^ 63 ]} Redis.empty_server
    = (false, Redis.empty_server).
Proof.
  assert (He : Redis.expiry <$> (Redis.hashes Examples.server_incr
                  !! RedisCache.metrics_key Examples.cfg "v1") = Some None)
    by by_evaluation.
  assert (Hg : RedisCache.get_video_metrics Examples.cfg (100 + 2 * 3600) "v1"
                 Examples.server_incr
               = Some (RedisCache.metrics_dict 5 0 (inject_Z 0) 0 0
                         (inject_Z 0) (inject_Z 0)))
    by by_evaluation.
  split; [exact He|]. split; [rewrite He; discriminate|].
  split; [rewrite Hg; discriminate|]. by_evaluation.
Qed.

(** ** The window accumulator                                             *)

Section window_facts.

Import Redis RedisCache.

Lemma zset_of_store key z r : zset_of (store_zset key z r) key = z.
Proof.
  unfold zset_of, store_zset. simpl. destruct z.
  - by rewrite lookup_delete_eq.
  - by rewrite lookup_insert_eq.
Qed.

Lemma zinsert_scores_sorted member score z :
  Sorted Z.le (map snd z) → Sorted Z.le (map snd (zinsert member score z)).
Proof.
  induction z as [|[m s] z IH]; simpl; intros Hs.
  - repeat constructor.
  - destruct ((score <? s) || ((score =? s) && String.ltb member m)) eqn:Hc.
    + simpl. constructor; [done|]. constructor.
      apply orb_true_iff in Hc as [Hc | Hc].
      * apply Z.ltb_lt in Hc. lia.
      * apply andb_true_iff in Hc as [Hc _]. apply Z.eqb_eq in Hc. lia.
    + simpl. apply orb_false_iff in Hc as [Hc _]. apply Z.ltb_ge in Hc.
      inversion Hs as [|? ? Hs' Hhd]; subst.
      constructor; [by apply IH|].
      destruct z as [|[m' s'] z']; simpl.
      * by constructor.
      * inversion Hhd; subst.
        destruct ((score <? s') || ((score =? s') && String.ltb member m'));
          simpl; by constructor.
Qed.

Lemma filter_scores_sorted (P : string * Z → Prop) `{!∀ p, Decision (P p)} z :
  Sorted Z.le (map snd z) → Sorted Z.le (map snd (filter P z)).
Proof.
  intros Hs. apply Sorted_StronglySorted in Hs; [|intros ???; lia].
  apply StronglySorted_Sorted.
  induction z as [|p z IH]; simpl; [constructor|].
  inversion Hs as [|? ? Hs' Hall]; subst.
  rewrite filter_cons. destruct (decide (P p)); simpl; [|by apply IH].
  constructor; [by apply IH|].
  rewrite List.Forall_forall in *. intros x Hx.
  apply Hall. rewrite List.in_map_iff in *.
  destruct Hx as (q & <- & Hq). exists q. split; [done|].
  apply list_elem_of_In. apply list_elem_of_In in Hq.
  apply list_elem_of_filter in Hq. tauto.
Qed.

Lemma add_window_up {Event : Type} (dumps : Event → string)
    (ets : Event → option Z) self now vid event w r r' :
  add_to_processing_window dumps ets self now vid event w r = (true, r') →
  up r = true ∧
  zset_of r' (window_key self vid) =
    filter (λ p, now - w <? snd p)
      (zadd_set (dumps event) (default now (ets event))
         (zset_of r (window_key self vid))).
Proof.
  unfold add_to_processing_window, add_to_processing_window_body.
  unfold zadd, zremrangebyscore_upto, mbind, outcome_bind.
  destruct (up r) eqn:Hup; simpl; [|done].
  rewrite Hup. intros H. inversion H; subst. split; [done|].
  by rewrite !zset_of_store.
Qed.

End window_facts.

(** C9.  After a successful add to the window of a video, every retained
    event has a timestamp (its score) later than now - window_size, the
    retained events are the earlier ones inside the window together with
    the new one, and a snapshot returns exactly the retained events, in
    timestamp order.  In particular, after events at t = 0, 100, 200, 400
    with window_size = 300 a snapshot at t = 410 holds the events at
    t = 200 and t = 400 only. *)
Theorem window_eviction_and_snapshot :
  (∀ (Event : Type) (dumps : Event → string) (loads : string → Event)
     (ets : Event → option Z) (self : RedisCache.config) (now : Z)
     (vid : string) (event : Event) (w : Z) (r r' : Redis.server),
     Sorted Z.le (map snd (Redis.zset_of r (RedisCache.window_key self vid))) →
     RedisCache.add_to_processing_window dumps ets self now vid event w r
       = (true, r') →
     let retained := Redis.zset_of r' (RedisCache.window_key self vid) in
     (∀ m s, (m, s) ∈ retained → now - w < s)
     ∧ retained =
         filter (λ p, now - w <? snd p)
           (Redis.zadd_set (dumps event) (default now (ets event))
              (Redis.zset_of r (RedisCache.window_key self vid)))
     ∧ RedisCache.get_window_events loads self vid r'
         = map loads (map fst retained)
     ∧ Sorted Z.le (map snd retained))
  ∧ RedisCache.get_window_events Examples.ts_loads Examples.cfg "v1"
      Examples.window_after_four = [200; 400].
Proof.
  split; [|by_evaluation].
  intros Event dumps loads ets self now vid event w r r' Hs Hadd retained.
  destruct (add_window_up _ _ _ _ _ _ _ _ _ Hadd) as [Hup Hret].
  fold retained in Hret.
  assert (Hup' : Redis.up r' = true).
  { revert Hadd. unfold RedisCache.add_to_processing_window,
      RedisCache.add_to_processing_window_body, Redis.zadd,
      Redis.zremrangebyscore_upto, mbind, outcome_bind.
    rewrite Hup. simpl. rewrite Hup. intros H. by inversion H. }
  repeat split.
  - intros m s Hin. rewrite Hret in Hin.
    apply list_elem_of_filter in Hin as [Hp _]. simpl in Hp.
    apply Is_true_true in Hp. apply Z.ltb_lt in Hp. lia.
  - exact Hret.
  - unfold RedisCache.get_window_events, Redis.zrange_all. by rewrite Hup'.
  - rewrite Hret. apply filter_scores_sorted.
    unfold Redis.zadd_set. apply zinsert_scores_sorted.
    by apply filter_scores_sorted.
Qed.

Lemma window_eviction_and_snapshot_witness :
  RedisCache.get_window_events Examples.ts_loads Examples.cfg "v1"
    (Examples.add_at 400 (Examples.add_at 200 Redis.empty_server))
  = map Examples.ts_loads
      (map fst (Redis.zset_of
                  (Examples.add_at 400 (Examples.add_at 200 Redis.empty_server))
                  (RedisCache.window_key Examples.cfg "v1"))).
Proof.
  refine (proj1 (proj2 (proj2 (proj1 window_eviction_and_snapshot Z
            Examples.ts_dumps Examples.ts_loads Examples.ts_timestamp
            Examples.cfg 400 "v1" 400 300
            (Examples.add_at 200 Redis.empty_server) _ _ _)))).
  - vm_compute. repeat constructor.
  - by_evaluation.
Defined.
(** ** Trending                                                           *)

Section float_order.







End float_order.

Section trending_facts.

Import Redis MetricsService.

Lemma insert_desc_perm x l : insert_desc x l ≡ₚ x :: l.
Proof.
  induction l as [|y l IH]; simpl; [done|].
  destruct (float_lt _ _); [|done].
  rewrite IH. apply Permutation_swap.
Qed.

Lemma stable_sort_desc_perm l : stable_sort_desc l ≡ₚ l.
Proof.
  induction l as [|x l IH]; simpl; [done|].
  rewrite insert_desc_perm. by rewrite IH.
Qed.






(** Whatever the sort does, it returns entries of its input. *)
Lemma elem_of_pick {A : Type} (positions : list nat) (l : list A) x :
  x ∈ pick positions l → x ∈ l.
Proof.
  unfold pick. intros (i & _ & Hi)%list_elem_of_omap.
  by apply list_elem_of_lookup_2 in Hi.
Qed.

Lemma elem_of_sort_by_engagement nan_order l x :
  x ∈ sort_by_engagement nan_order l → x ∈ l.
Proof.
  unfold sort_by_engagement. destruct (existsb _ _).
  - apply elem_of_pick.
  - by rewrite stable_sort_desc_perm.
Qed.



Lemma trending_inv nan_order now r ks limit res :
  get_trending_videos nan_order now r ks limit = Ret res →
  ∃ videos, collect_videos now r ks = Ret videos
            ∧ res = slice_to limit (sort_by_engagement nan_order videos).
Proof.
  unfold get_trending_videos, get_trending_videos_body, try_except.
  destruct (up r); simpl; [|done].
  destruct ks as [|k ks].
  { intros H. inversion H. exists []. split; [done|].
    unfold slice_to, sort_by_engagement, pick. simpl.
    destruct (0 <=? limit); by rewrite take_nil. }
  unfold mbind, outcome_bind.
  destruct (collect_videos now r (k :: ks)) as [vs|]; simpl; [|done].
  intros H. inversion H. by exists vs.
Qed.

End trending_facts.




(** ** Derived fields of an aggregation                                   *)

Section aggregation_facts.

Import BigQuery.

(** Every record [_process_aggregation_results] builds has both derived
    fields as §3 defines them. *)
Lemma process_aggregation_results_derived df timestamp vid data :
  BatchProcessor._process_aggregation_results df timestamp !! vid = Some data →
  BatchProcessor.derived_ok (BatchProcessor.entry_metrics data).
Proof.
  unfold BatchProcessor._process_aggregation_results.
  assert (Hgen : ∀ acc : gmap string BatchProcessor.agg_entry,
    (∀ k d, acc !! k = Some d → BatchProcessor.derived_ok (BatchProcessor.entry_metrics d)) →
    ∀ d, foldl (λ metrics row,
           <[BatchProcessor.df_video_id row :=
               BatchProcessor.mk_entry timestamp
                 (BatchProcessor.mk_metrics
                    (BatchProcessor.df_unique_views row)
                    (BatchProcessor.df_likes row)
                    (BatchProcessor.df_total_watch_time row)
                    (BatchProcessor.df_unique_users row)
                    (BatchProcessor.df_countries_reached row)
                    (if 0 <? BatchProcessor.df_unique_views row
                     then (inject_Z (BatchProcessor.df_likes row)
                           / inject_Z (BatchProcessor.df_unique_views row))%Q
                     else inject_Z 0)
                    (if 0 <? BatchProcessor.df_unique_views row
                     then (BatchProcessor.df_total_watch_time row
                           / inject_Z (BatchProcessor.df_unique_views row))%Q
                     else inject_Z 0))]> metrics) acc df !! vid = Some d →
      BatchProcessor.derived_ok (BatchProcessor.entry_metrics d)).
  { induction df as [|row df IH]; simpl; intros acc Hacc d Hd; [by eapply Hacc|].
    eapply IH; [|exact Hd]. intros k d' Hk.
    apply lookup_insert_Some in Hk as [[_ <-] | [_ Hk]]; [|by eapply Hacc].
    unfold BatchProcessor.derived_ok. simpl. split.
    - intros Hpos. apply Z.ltb_lt in Hpos. by rewrite Hpos.
    - intros H0. by rewrite H0. }
  intros H. eapply (Hgen ∅); [|exact H]. intros k d Hk. by rewrite lookup_empty in Hk.
Qed.

Lemma group_metrics_no_avg group :
  BatchRollup.group_metrics group !! "avg_watch_time" = None.
Proof.
  unfold BatchRollup.group_metrics.
  destruct (0 <? _); by simplify_map_eq.
Qed.

(** No record [_aggregate_metrics] builds has an avg_watch_time. *)
Lemma aggregate_metrics_no_avg df vid m :
  BatchRollup._aggregate_metrics df !! vid = Some m →
  m !! "avg_watch_time" = None.
Proof.
  unfold BatchRollup._aggregate_metrics.
  generalize (group_keys df). intros ks.
  assert (Hgen : ∀ acc : gmap string (gmap string BatchRollup.val),
    (∀ k d, acc !! k = Some d → d !! "avg_watch_time" = None) →
    ∀ d, foldl (λ metrics video_id,
                  <[video_id := BatchRollup.group_metrics
                                  (filter (of_video video_id) df)]> metrics)
               acc ks !! vid = Some d →
         d !! "avg_watch_time" = None).
  { induction ks as [|k0 ks IH]; simpl; intros acc Hacc d Hd; [by eapply Hacc|].
    eapply IH; [|exact Hd]. intros k d' Hk.
    apply lookup_insert_Some in Hk as [[_ <-] | [_ Hk]]; [|by eapply Hacc].
    apply group_metrics_no_avg. }
  intros H. eapply (Hgen ∅); [|exact H]. intros k d Hk. by rewrite lookup_empty in Hk.
Qed.

End aggregation_facts.

(** C4, at the failing input.  For a bucket holding one view of 30 seconds,
    the record [_aggregate_metrics] builds has one view, a total watch time
    of 30 and an engagement_rate, but no avg_watch_time at all, where §3
    asks for 30 / 1. *)
Theorem aggregate_metrics_lacks_avg_watch_time :
  ∃ m, BatchRollup._aggregate_metrics Examples.one_view !! "v1" = Some m
       ∧ m !! "unique_views" = Some (BatchRollup.VInt 1)
       ∧ m !! "total_watch_time" = Some (BatchRollup.VFloat (30 # 1))
       ∧ m !! "engagement_rate" = Some (BatchRollup.VFloat (0 # 1))
       ∧ m !! "avg_watch_time" = None.
Proof.
  exists (BatchRollup.group_metrics Examples.one_view).
  repeat split; by_evaluation.
Qed.

(** ** The batch rollup job                                               *)

Section rollup_facts.

Import BigQuery BatchProcessor.

Lemma foldl_insert_dom {A B : Type} (key : A → string) (val : A → B)
    (l : list A) (acc : gmap string B) :
  dom (foldl (λ m a, <[key a := val a]> m) acc l)
  = dom acc ∪ list_to_set (key <$> l).
Proof.
  revert acc. induction l as [|a l IH]; intros acc; simpl.
  - by rewrite (right_id_L ∅ (∪)).
  - rewrite IH, dom_insert_L. apply set_eq. intros x.
    rewrite !elem_of_union, elem_of_singleton. tauto.
Qed.

Lemma foldl_insert_lookup {A B : Type} (key : A → string) (val : A → B)
    (l : list A) (acc : gmap string B) k v :
  foldl (λ m a, <[key a := val a]> m) acc l !! k = Some v →
  acc !! k = Some v ∨ ∃ a, a ∈ l ∧ key a = k ∧ v = val a.
Proof.
  revert acc. induction l as [|a l IH]; intros acc; simpl; [by left|].
  intros H. apply IH in H as [H | (a' & Ha' & Hk & Hv)].
  - apply lookup_insert_Some in H as [[<- <-] | [_ H]]; [|by left].
    right. exists a. split; [left | done].
  - right. exists a'. split; [by right | done].
Qed.

Lemma rows_video_ids metrics :
  map row_video_id (rows_to_insert metrics) = (map_to_list metrics).*1.
Proof.
  unfold rows_to_insert. rewrite map_map. apply map_ext. by intros [k d].
Qed.

Lemma rows_nodup metrics : NoDup (map row_video_id (rows_to_insert metrics)).
Proof. rewrite rows_video_ids. apply NoDup_fst_map_to_list. Qed.

Lemma elem_of_rows metrics row :
  row ∈ rows_to_insert metrics →
  ∃ data, metrics !! row_video_id row = Some data
          ∧ row_timestamp row = entry_timestamp data
          ∧ row_metrics row = entry_metrics data.
Proof.
  unfold rows_to_insert. intros H.
  apply list_elem_of_In, List.in_map_iff in H as ([k d] & <- & Hin).
  apply list_elem_of_In, elem_of_map_to_list in Hin. simpl. eauto.
Qed.

Lemma hourly_query_ids raw hs he :
  df_video_id <$> hourly_query raw hs he
  = group_keys (filter (λ e, (hs <=? ev_event_timestamp e)
                             && (ev_event_timestamp e <? he)) raw).
Proof.
  unfold hourly_query. rewrite <- list_fmap_compose.
  rewrite <- (list_fmap_id (group_keys _)) at 2. by apply list_fmap_ext.
Qed.

(** The videos that get a row are the videos with an event in the bucket. *)
Lemma rollup_videos raw ts v :
  v ∈ map row_video_id (rows_to_insert (process_hourly_aggregation raw ts)) ↔
  ∃ e, e ∈ raw ∧ ev_video_id e = v
       ∧ hour_start_of ts <= ev_event_timestamp e < hour_start_of ts + 3600.
Proof.
  rewrite rows_video_ids.
  change ((map_to_list ?m).*1) with (fst <$> map_to_list m).
  assert (Hd : ∀ m : gmap string agg_entry, v ∈ (map_to_list m).*1 ↔ v ∈ dom m).
  { intros m. rewrite elem_of_dom. split.
    - intros H. apply list_elem_of_fmap in H as ([k d] & -> & Hin).
      apply elem_of_map_to_list in Hin. eauto.
    - intros [d Hd]. apply list_elem_of_fmap. exists (v, d).
      split; [done|]. by apply elem_of_map_to_list. }
  rewrite Hd. unfold process_hourly_aggregation, _process_aggregation_results.
  rewrite (foldl_insert_dom df_video_id _ _ ∅).
  rewrite dom_empty_L, (left_id_L ∅ (∪)), elem_of_list_to_set.
  rewrite hourly_query_ids. unfold group_keys.
  rewrite elem_of_remove_dups. change (map ev_video_id ?l) with (ev_video_id <$> l).
  rewrite list_elem_of_fmap. split.
  - intros (e & -> & He). apply list_elem_of_filter in He as [Hp He].
    exists e. split; [done|]. split; [done|].
    apply Is_true_true, andb_true_iff in Hp as [H1 H2].
    apply Z.leb_le in H1. apply Z.ltb_lt in H2. lia.
  - intros (e & He & <- & Hr). exists e. split; [done|].
    apply list_elem_of_filter. split; [|done].
    apply Is_true_true, andb_true_iff.
    split; [apply Z.leb_le | apply Z.ltb_lt]; lia.
Qed.

Lemma rollup_timestamps raw ts row :
  row ∈ rows_to_insert (process_hourly_aggregation raw ts) →
  row_timestamp row = hour_start_of ts.
Proof.
  intros H. apply elem_of_rows in H as (data & Hl & -> & _).
  unfold process_hourly_aggregation, _process_aggregation_results in Hl.
  apply (foldl_insert_lookup df_video_id) in Hl as [Hl | (a & _ & _ & ->)].
  - by rewrite lookup_empty in Hl.
  - done.
Qed.

Lemma filter_none {A : Type} (P : A → Prop) `{!∀ y, Decision (P y)}
    (l : list A) :
  (∀ y, y ∈ l → ¬ P y) → filter P l = [].
Proof.
  induction l as [|a l IH]; intros Hall; [done|].
  rewrite filter_cons. destruct (decide (P a)) as [Hp|_].
  - exfalso. apply (Hall a); [left | done].
  - apply IH. intros y Hy. apply Hall. by right.
Qed.

(** In a list whose keys are pairwise distinct, the entries that agree with
    [x] on the key are [x] alone. *)
Lemma filter_unique_key {A : Type} (key : A → string) (P : A → Prop)
    `{!∀ y, Decision (P y)} (l : list A) (x : A) :
  NoDup (map key l) → x ∈ l → (∀ y, y ∈ l → P y ↔ key y = key x) →
  filter P l = [x].
Proof.
  induction l as [|a l IH]; intros Hnd Hx HP; [by apply elem_of_nil in Hx|].
  simpl in Hnd. apply NoDup_cons in Hnd as [Hna Hnd].
  rewrite filter_cons. apply elem_of_cons in Hx as [-> | Hx].
  - destruct (decide (P a)) as [_|Hn]; [|exfalso; apply Hn, HP; [left | done]].
    f_equal. apply filter_none. intros y Hy HPy.
    apply HP in HPy; [|by right]. apply Hna. rewrite <- HPy.
    change (map key l) with (key <$> l). apply list_elem_of_fmap. eauto.
  - destruct (decide (P a)) as [Hp|_].
    + exfalso. apply HP in Hp; [|left]. apply Hna. rewrite Hp.
      change (map key l) with (key <$> l). apply list_elem_of_fmap. eauto.
    + apply IH; [done | done |]. intros y Hy. apply HP. by right.
Qed.

End rollup_facts.

Section rollup_runs.

Import BigQuery BatchProcessor.

Lemma run_rollup_appends raw ts table :
  run_rollup raw ts table
  = Ret (table ++ rows_to_insert (process_hourly_aggregation raw ts)).
Proof. reflexivity. Qed.

Lemma rows_for_single raw ts row :
  row ∈ rows_to_insert (process_hourly_aggregation raw ts) →
  rows_for (row_video_id row) (hour_start_of ts)
    (rows_to_insert (process_hourly_aggregation raw ts)) = [row].
Proof.
  intros Hrow. unfold rows_for.
  apply (filter_unique_key row_video_id); [apply rows_nodup | done |].
  intros y Hy. apply (rollup_timestamps raw ts) in Hy. simpl.
  rewrite Hy. tauto.
Qed.

(** [process_batch], the second class's job, appends in the same way. *)
Lemma process_batch_appends now raw ts table m table' :
  BatchRollup.process_batch now raw (Some ts) table = Ret (m, table') →
  ∃ rows, table' = table ++ rows
          ∧ ∀ m2 table2,
              BatchRollup.process_batch now raw (Some ts) table' = Ret (m2, table2) →
              table2 = table ++ rows ++ rows.
Proof.
  unfold BatchRollup.process_batch. simpl.
  destruct (filter _ raw) as [|e df] eqn:Hdf.
  - intros H. inversion H; subst. exists []. split; [by rewrite app_nil_r|].
    intros m2 table2 H2. inversion H2. by rewrite !app_nil_r.
  - unfold BatchRollup._save_aggregated_metrics, insert_rows_json.
    unfold mbind, outcome_bind. simpl. intros H. inversion H; subst.
    eexists. split; [reflexivity|]. intros m2 table2 H2. inversion H2.
    by rewrite <- app_assoc.
Qed.

End rollup_runs.

(** C2 (amended).  Running the Batch Rollup Job twice with the same bucket
    timestamp over the same raw events appends the same rows twice: each
    run adds one Aggregate Row per video that has an event in the bucket,
    stamped with the bucket start, so after the second run the table holds
    two rows per video for that bucket, with identical field values; the
    second run duplicates, it does not overwrite. *)
Theorem rollup_rerun_appends (raw : list BigQuery.raw_event) (ts : Z)
    (table : list BatchProcessor.agg_row) :
  let rows := BatchProcessor.rows_to_insert
                (BatchProcessor.process_hourly_aggregation raw ts) in
  let bucket := BatchProcessor.hour_start_of ts in
  BatchProcessor.run_rollup raw ts table = Ret (table ++ rows)
  ∧ BatchProcessor.run_rollup_twice raw ts table = Ret (table ++ rows ++ rows)
  ∧ (∀ v, v ∈ map BatchProcessor.row_video_id rows ↔
          ∃ e, e ∈ raw ∧ BigQuery.ev_video_id e = v
               ∧ bucket <= BigQuery.ev_event_timestamp e < bucket + 3600)
  ∧ (∀ row, row ∈ rows →
       BatchProcessor.row_timestamp row = bucket
       ∧ BatchProcessor.rows_for (BatchProcessor.row_video_id row) bucket rows
         = [row]
       ∧ BatchProcessor.rows_for (BatchProcessor.row_video_id row) bucket
           (rows ++ rows) = [row; row]).
Proof.
  intros rows bucket. split; [reflexivity|]. split.
  { unfold BatchProcessor.run_rollup_twice. rewrite run_rollup_appends.
    unfold mbind, outcome_bind. simpl. rewrite run_rollup_appends.
    by rewrite <- app_assoc. }
  split; [intros v; apply rollup_videos|].
  intros row Hrow. split; [by apply (rollup_timestamps raw ts)|].
  pose proof (rows_for_single raw ts row Hrow) as Hone.
  split; [exact Hone|].
  unfold BatchProcessor.rows_for in *. rewrite filter_app.
  fold rows bucket in Hone. by rewrite Hone.
Qed.

(** C2 as stated fails: after two runs for bucket 0 over the same three raw
    events, starting from an empty table, video v1 has two Aggregate Rows
    for the bucket, not one. *)
Lemma rollup_rerun_counterexample :
  ∃ table2,
    BatchProcessor.run_rollup_twice Examples.raw_events 0 [] = Ret table2
    ∧ length (BatchProcessor.rows_for "v1" 0 table2) = 2%nat
    ∧ length (BatchProcessor.rows_for "v1" 0 table2) ≠ 1%nat.
Proof.
  eexists. split; [vm_compute; reflexivity|].
  split; [vm_compute; reflexivity | vm_compute; discriminate].
Qed.

(** ** Historical metrics over a time range                               *)

(** C3 (amended).  For every time-range query that finds at least one
    aggregate bucket, the historical-metrics result sums views, likes, watch
    time and unique users over the buckets, and reports engagement_rate and
    avg_watch_time as the arithmetic mean of the per-bucket values (SQL
    AVG), not as a ratio of the summed totals; e.g. buckets
    {views:10, likes:2} and {views:5, likes:1}, both with rate 0.2, yield
    engagement_rate 0.2. *)
Theorem historical_metrics_average :
  (∀ (table : list BatchProcessor.agg_row) (vid : string) (s e : Z)
     (res : ApiServer.TimeRangeMetrics),
     ApiServer.get_historical_metrics table vid s e = Ret res →
     let rows := ApiServer.rows_in_range table vid s e in
     let m := ApiServer.tr_metrics res in
     rows ≠ []
     ∧ ApiServer.tr_start_time res = s ∧ ApiServer.tr_end_time res = e
     ∧ ApiServer.vm_views m = BigQuery.sumZ (map BatchProcessor.unique_views rows)
     ∧ ApiServer.vm_likes m = BigQuery.sumZ (map BatchProcessor.likes rows)
     ∧ ApiServer.vm_watch_time m
       = BigQuery.sumQ (map BatchProcessor.total_watch_time rows)
     ∧ ApiServer.vm_unique_users m
       = BigQuery.sumZ (map BatchProcessor.unique_users rows)
     ∧ ApiServer.vm_engagement_rate m
       = (BigQuery.sumQ (map BatchProcessor.engagement_rate rows)
          / inject_Z (Z.of_nat (length rows)))%Q
     ∧ ApiServer.vm_avg_watch_time m
       = (BigQuery.sumQ (map BatchProcessor.avg_watch_time rows)
          / inject_Z (Z.of_nat (length rows)))%Q)
  ∧ (∃ res, ApiServer.get_historical_metrics Examples.table_equal_rates
              "v1" 0 3600 = Ret res
            ∧ (ApiServer.vm_engagement_rate (ApiServer.tr_metrics res)
               == 1 # 5)%Q).
Proof.
  split.
  - intros table vid s e res H rows m.
    unfold ApiServer.get_historical_metrics,
      ApiServer.get_historical_metrics_body, try_except in H.
    fold rows in H. destruct rows as [|row0 rest] eqn:Hrows; [done|].
    inversion H; subst res. unfold m, ApiServer.historical_row, BigQuery.avgQ.
    cbn [ApiServer.tr_metrics ApiServer.tr_start_time ApiServer.tr_end_time
         ApiServer.vm_views ApiServer.vm_likes ApiServer.vm_watch_time
         ApiServer.vm_unique_users ApiServer.vm_engagement_rate
         ApiServer.vm_avg_watch_time].
    rewrite !length_map. repeat split; done.
  - eexists. split; [vm_compute; reflexivity|]. vm_compute. reflexivity.
Qed.

Lemma historical_metrics_average_witness :
  ApiServer.vm_views (ApiServer.tr_metrics Examples.historical_equal_rates)
  = BigQuery.sumZ (map BatchProcessor.unique_views
                     (ApiServer.rows_in_range Examples.table_equal_rates
                        "v1" 0 3600)).
Proof.
  refine (proj1 (proj2 (proj2 (proj2 (proj1 historical_metrics_average
            Examples.table_equal_rates "v1" 0 3600
            Examples.historical_equal_rates _))))).
  vm_compute. reflexivity.
Defined.

(** C3 as stated fails when the per-bucket rates differ.  For buckets
    {views:10, likes:2} and {views:5, likes:2} the result has likes 4 and
    views 15, yet its engagement_rate is (0.2 + 0.4) / 2 = 0.3, not
    4 / 15. *)
Lemma historical_ratio_counterexample :
  ∃ res,
    ApiServer.get_historical_metrics Examples.table_skewed "v1" 0 3600 = Ret res
    ∧ ApiServer.vm_likes (ApiServer.tr_metrics res) = 4
    ∧ ApiServer.vm_views (ApiServer.tr_metrics res) = 15
    ∧ (ApiServer.vm_engagement_rate (ApiServer.tr_metrics res) == 3 # 10)%Q
    ∧ ¬ (ApiServer.vm_engagement_rate (ApiServer.tr_metrics res)
         == inject_Z 4 / inject_Z 15)%Q.
Proof.
  eexists. split; [vm_compute; reflexivity|].
  split; [vm_compute; reflexivity|]. split; [vm_compute; reflexivity|].
  split; [vm_compute; reflexivity|].
  intros H. vm_compute in H. discriminate.
Qed.

(** ** The metrics resolver                                               *)

Section resolver_facts.

Import Redis MetricsService.

Lemma metrics_dict_truthy v l w u c e a :
  truthy (RedisCache.metrics_dict v l w u c e a) = true.
Proof.
  unfold truthy. rewrite bool_decide_eq_false_2; [done|].
  intros H. apply (f_equal (λ m, m !! "views")) in H.
  unfold RedisCache.metrics_dict in H. by simplify_map_eq.
Qed.

(** Step 1: a cache hit is returned at once, and nothing is written. *)
Lemma resolver_cache_hit self now vid r m :
  RedisCache.get_video_metrics (redis self) now vid r = Some m →
  get_video_metrics self now vid r = (Ret m, r).
Proof.
  intros H. unfold get_video_metrics, get_video_metrics_body. rewrite H.
  destruct (get_hit_inv _ _ _ _ _ H)
    as (_ & _ & v & l & w & u & c & e & a & _ & _ & _ & _ & _ & _ & _ & ->).
  simpl. by rewrite metrics_dict_truthy.
Qed.

(** Steps 2 and 4: on a miss the durable store is asked for this video and
    the window [now - 300, now] of the events table; a record it returns is
    written to the cache under the default TTL and returned, and a cache
    get inside that TTL then returns the same record. *)
Lemma resolver_fallback_populates self bq now vid r v l w u c e a t :
  up r = true →
  RedisCache.get_video_metrics (redis self) now vid r = None →
  bigquery self = Some bq →
  bq vid (now - 300) now (events_table self)
    = Ret (Some (RedisCache.metrics_dict v l w u c e a)) →
  now <= t < now + RedisCache.effective_ttl (redis self) None →
  fst (get_video_metrics self now vid r)
    = Ret (RedisCache.metrics_dict v l w u c e a)
  ∧ RedisCache.get_video_metrics (redis self) t vid
      (snd (get_video_metrics self now vid r))
    = Some (RedisCache.metrics_dict v l w u c e a).
Proof.
  intros Hup Hmiss Hbq Hrows Ht.
  unfold get_video_metrics, get_video_metrics_body.
  rewrite Hmiss, Hbq. simpl. rewrite Hrows. simpl.
  rewrite metrics_dict_truthy. simpl. split; [done|].
  destruct (set_then_get_general (redis self) now vid v l w u c e a None r t
              Hup (proj1 Ht)) as (_ & Hget & _).
  apply Hget. lia.
Qed.

(** Whatever happens, the resolver answers with a record or with the 500
    of its catch-all handler; the 404 raised in its body never gets out. *)
Lemma resolver_outcomes self now vid r :
  (∃ m, fst (get_video_metrics self now vid r) = Ret m)
  ∨ fst (get_video_metrics self now vid r) = Raise internal_error.
Proof.
  unfold get_video_metrics.
  destruct (get_video_metrics_body self now vid r) as [[m|ex] r']; simpl; eauto.
Qed.

End resolver_facts.

(** C1, at the failing input.  With an empty cache and a durable store that
    has no rows for v1, the cache misses, the store is asked and yields
    nothing, and the resolver answers with HTTP 500 "Internal server
    error" where the claim asks for NotFound: the 404 it raises is caught
    by its own [except Exception].  The sibling [get_historical_metrics],
    which re-raises HTTPException first, does answer 404 on the same
    store. *)
Theorem resolver_not_found_is_500 :
  RedisCache.get_video_metrics Examples.cfg 1000 "v1" Redis.empty_server = None
  ∧ Examples.bq_no_rows "v1" (1000 - 300) 1000 "raw_events" = Ret None
  ∧ MetricsService.get_video_metrics Examples.service_no_rows 1000 "v1"
      Redis.empty_server
    = (Raise (HTTPException 500 "Internal server error"), Redis.empty_server)
  ∧ MetricsService.get_historical_metrics Examples.service_no_rows "v1" 0 1000
    = Raise (HTTPException 404 "Historical metrics not found").
Proof. repeat split; by_evaluation. Qed.

(** The fallback example of the specification: with an empty cache and a
    durable store that yields the record for v1, the resolver returns the
    record and a cache get right after returns the same record. *)
Example resolver_fallback_example :
  fst (MetricsService.get_video_metrics Examples.service_record_v1 1000 "v1"
         Redis.empty_server) = Ret Examples.record_v1
  ∧ RedisCache.get_video_metrics Examples.cfg 1001 "v1"
      (snd (MetricsService.get_video_metrics Examples.service_record_v1 1000
              "v1" Redis.empty_server))
    = Some Examples.record_v1.
Proof. split; by_evaluation. Qed.

(* ===================================================================== *)
(** * Further properties of the cache store                               *)
(* ===================================================================== *)

Section cache_more.

Import Redis RedisCache.

Lemma length_append (a b : string) :
  String.length (a +:+ b) = (String.length a + String.length b)%nat.
Proof. induction a as [|c a IH]; simpl; [done | by rewrite IH]. Qed.

Lemma append_cancel_r (a b s : string) : a +:+ s = b +:+ s → a = b.
Proof.
  revert b. induction a as [|c a IH]; intros [|d b] H.
  - done.
  - apply (f_equal String.length) in H.
    rewrite !length_append in H. simpl in H. lia.
  - apply (f_equal String.length) in H.
    rewrite !length_append in H. simpl in H. lia.
  - change (String c (a +:+ s) = String d (b +:+ s)) in H.
    inversion H; subst. f_equal. by apply IH.
Qed.

Lemma metrics_key_inj self a b : metrics_key self a = metrics_key self b → a = b.
Proof.
  unfold metrics_key, _get_key. intros H.
  apply String.app_inj in H. apply (String.app_inj "video:") in H.
  by apply append_cancel_r in H.
Qed.

Lemma window_key_inj self a b : window_key self a = window_key self b → a = b.
Proof.
  unfold window_key, _get_key. intros H.
  apply String.app_inj in H. by apply (String.app_inj "window:") in H.
Qed.

(** A get sees the reachability flag and the one hash of its key only. *)
Lemma get_ext self t vid r1 r2 :
  up r1 = up r2 →
  hashes r1 !! metrics_key self vid = hashes r2 !! metrics_key self vid →
  get_video_metrics self t vid r1 = get_video_metrics self t vid r2.
Proof.
  intros Hup Hk. unfold get_video_metrics, get_video_metrics_body, hgetall,
    hgetall_fields, live_entry. by rewrite Hup, Hk.
Qed.

Lemma set_other_keys self now vid m ttl r k :
  k ≠ metrics_key self vid →
  hashes (snd (set_video_metrics self now vid m ttl r)) !! k = hashes r !! k.
Proof.
  intros Hne. unfold set_video_metrics, set_video_metrics_body.
  destruct (negb (truthy (str <$> m))); [done|].
  destruct (negb (up r)); [done|]. simpl.
  unfold expire. rewrite live_entry_hmset.
  destruct (0 <? effective_ttl self ttl); simpl.
  - rewrite lookup_insert_ne by done. unfold hmset. simpl.
    by rewrite lookup_insert_ne.
  - rewrite lookup_delete_ne by done. unfold hmset. simpl.
    by rewrite lookup_insert_ne.
Qed.

Lemma set_keeps_up self now vid m ttl r :
  up (snd (set_video_metrics self now vid m ttl r)) = up r.
Proof.
  unfold set_video_metrics, set_video_metrics_body.
  destruct (negb (truthy (str <$> m))); [done|].
  destruct (negb (up r)); [done|]. simpl. apply up_after_set_expire.
Qed.

Lemma hincrby_keeps_up now key field delta r :
  up (fst (hincrby now key field delta r)) = up r.
Proof.
  unfold hincrby. by destruct (hincrby_value _ delta).
Qed.

Lemma increment_all_frame now key metrics r :
  up (fst (increment_all now key metrics r)) = up r
  ∧ ∀ k, k ≠ key →
      hashes (fst (increment_all now key metrics r)) !! k = hashes r !! k.
Proof.
  unfold increment_all.
  apply (map_fold_weak_ind
    (λ (acc : server * bool) (_ : gmap string Z),
       up (fst acc) = up r
       ∧ ∀ k, k ≠ key → hashes (fst acc) !! k = hashes r !! k)).
  - done.
  - intros f d m [r1 ok] _ [Hup Hk]. simpl in *.
    destruct (hincrby now key f d r1) as [r2 ok2] eqn:Hh. simpl.
    assert (r2 = fst (hincrby now key f d r1)) as -> by by rewrite Hh.
    split.
    + by rewrite hincrby_keeps_up.
    + intros k Hne. rewrite hincrby_other_keys by done. by apply Hk.
Qed.

Lemma increment_result self now vid metrics r :
  up r = true →
  increment_metrics self now vid metrics r
  = (snd (increment_all now (metrics_key self vid) metrics r),
     fst (increment_all now (metrics_key self vid) metrics r)).
Proof.
  intros Hup. unfold increment_metrics. rewrite Hup. simpl.
  by destruct (increment_all _ _ _ _).
Qed.

End cache_more.

(** X1.  [set_video_metrics] reports success exactly when the dictionary is
    not empty and the backend is reachable; when it reports failure the
    store is as it was. *)
Theorem set_succeeds_iff (self : RedisCache.config) (now : Z) (vid : string)
    (m : gmap string pyval) (ttl : option Z) (r : Redis.server) :
  (fst (RedisCache.set_video_metrics self now vid m ttl r) = true
     ↔ m ≠ ∅ ∧ Redis.up r = true)
  ∧ (fst (RedisCache.set_video_metrics self now vid m ttl r) = false →
     snd (RedisCache.set_video_metrics self now vid m ttl r) = r).
Proof.
  unfold RedisCache.set_video_metrics, RedisCache.set_video_metrics_body, truthy.
  destruct (decide (m = ∅)) as [->|Hne].
  - rewrite fmap_empty, bool_decide_eq_true_2 by done. simpl.
    split; [|done]. split; [done | by intros [? _]].
  - rewrite bool_decide_eq_false_2; [|by intros H%fmap_empty_inv].
    simpl. destruct (Redis.up r); simpl; split; try done.
    split; [done | by intros [_ ?]].
Qed.

(** X2.  A set does not clear the hash: the fields it names are
    overwritten, every other stored field stays, and the expiry is moved
    to now + the effective TTL. *)
Theorem set_merges_into_existing (self : RedisCache.config) (now : Z)
    (vid : string) (m : gmap string pyval) (ttl : option Z)
    (r : Redis.server) :
  Redis.up r = true → m ≠ ∅ → 0 < RedisCache.effective_ttl self ttl →
  Redis.hashes (snd (RedisCache.set_video_metrics self now vid m ttl r))
    !! RedisCache.metrics_key self vid
  = Some (Redis.mk_hash
            ((str <$> m) ∪ Redis.hgetall_fields now r (RedisCache.metrics_key self vid))
            (Some (now + RedisCache.effective_ttl self ttl))).
Proof.
  intros Hup Hne Hpos.
  rewrite hashes_after_set; [|done|by intros H%fmap_empty_inv].
  simpl. rewrite lookup_after_set_expire.
  by replace (0 <? RedisCache.effective_ttl self ttl) with true
    by (symmetry; apply Z.ltb_lt; lia).
Qed.

Lemma set_merges_into_existing_witness :
  Redis.hashes (snd (RedisCache.set_video_metrics Examples.cfg 10 "v1"
                       {[ "likes" := PInt 3 ]} None Examples.server_extra))
    !! RedisCache.metrics_key Examples.cfg "v1"
  = Some (Redis.mk_hash
            ((str <$> {[ "likes" := PInt 3 ]})
               ∪ Redis.hgetall_fields 10 Examples.server_extra
                   (RedisCache.metrics_key Examples.cfg "v1"))
            (Some (10 + RedisCache.effective_ttl Examples.cfg None))).
Proof.
  apply (set_merges_into_existing Examples.cfg 10 "v1" {[ "likes" := PInt 3 ]}
           None Examples.server_extra).
  - reflexivity.
  - intros H. apply (f_equal (λ x : gmap string pyval, x !! "likes")) in H.
    by rewrite lookup_singleton_eq in H.
  - reflexivity.
Defined.

(** X3.  No cache write spans two videos: a set or an increment for one
    video leaves what a get returns for any other video as it was. *)
Theorem writes_leave_other_videos (self : RedisCache.config) (now t : Z)
    (vid other : string) (m : gmap string pyval) (ttl : option Z)
    (incs : gmap string Z) (r : Redis.server) :
  other ≠ vid →
  RedisCache.get_video_metrics self t other
    (snd (RedisCache.set_video_metrics self now vid m ttl r))
  = RedisCache.get_video_metrics self t other r
  ∧ RedisCache.get_video_metrics self t other
      (snd (RedisCache.increment_metrics self now vid incs r))
    = RedisCache.get_video_metrics self t other r.
Proof.
  intros Hne.
  assert (Hk : RedisCache.metrics_key self other ≠ RedisCache.metrics_key self vid)
    by (intros H; by apply metrics_key_inj in H).
  split.
  - apply get_ext; [apply set_keeps_up | by apply set_other_keys].
  - destruct (Redis.up r) eqn:Hup.
    + rewrite increment_result by done. simpl.
      destruct (increment_all_frame now (RedisCache.metrics_key self vid) incs r)
        as [Hu Hf].
      apply get_ext; [done | by apply Hf].
    + by rewrite increment_down.
Qed.

Lemma writes_leave_other_videos_witness :
  RedisCache.get_video_metrics Examples.cfg 20 "v1"
    (snd (RedisCache.set_video_metrics Examples.cfg 10 "v2" Examples.record_v1
            None Examples.server_extra))
  = RedisCache.get_video_metrics Examples.cfg 20 "v1" Examples.server_extra.
Proof.
  refine (proj1 (writes_leave_other_videos Examples.cfg 10 20 "v2" "v1"
                   Examples.record_v1 None ∅ Examples.server_extra _)).
  discriminate.
Defined.

(** X4.  A stored field that does not parse makes the whole entry
    unreadable: when the hash of a reachable backend holds, under one of
    the four integer fields, a text [int()] rejects, or under one of the
    three float fields a text [float()] rejects, the get returns [None]
    although the key is there. *)
Theorem unparsable_field_reads_as_miss (self : RedisCache.config) (now : Z)
    (vid : string) (r : Redis.server) (k : string) (b : rbytes) :
  Redis.hgetall_fields now r (RedisCache.metrics_key self vid) !! k = Some b →
  (k ∈ RedisCache.int_fields ∧ ∀ z, int b ≠ Ret z)
  ∨ (k ∈ RedisCache.float_fields ∧ ∀ q, float b ≠ Ret q) →
  RedisCache.get_video_metrics self now vid r = None.
Proof.
  intros Hk Hbad.
  destruct (RedisCache.get_video_metrics self now vid r) as [d|] eqn:Hget; [|done].
  exfalso.
  destruct (get_hit_inv _ _ _ _ _ Hget)
    as (_ & _ & v & l & w & u & c & e & a & E1 & E2 & E3 & E4 & E5 & E6 & E7 & _).
  unfold int_get, float_get in *.
  unfold RedisCache.int_fields, RedisCache.float_fields in Hbad.
  destruct Hbad as [[Hin Hno] | [Hin Hno]];
    rewrite !elem_of_union, !elem_of_singleton in Hin.
  - destruct Hin as [[[-> | ->] | ->] | ->]; rewrite Hk in *;
      eapply Hno; eassumption.
  - destruct Hin as [[-> | ->] | ->]; rewrite Hk in *;
      eapply Hno; eassumption.
Qed.

Lemma unparsable_field_reads_as_miss_witness :
  RedisCache.get_video_metrics Examples.cfg 5 "v1" Examples.server_corrupt = None.
Proof.
  apply (unparsable_field_reads_as_miss Examples.cfg 5 "v1"
           Examples.server_corrupt "views" (BFloat (3 # 2))).
  - by_evaluation.
  - left. split; [|discriminate].
    unfold RedisCache.int_fields. rewrite !elem_of_union, !elem_of_singleton.
    tauto.
Defined.

Section increment_fold.

Import Redis RedisCache.

Lemma holds_default now r key :
  holds now r key
    (fields (default (mk_hash ∅ None) (live_entry now r key)))
    (expiry (default (mk_hash ∅ None) (live_entry now r key))).
Proof.
  unfold holds. destruct (live_entry now r key) as [[h x]|]; simpl; auto.
Qed.

Lemma holds_unique now r key h x :
  holds now r key h x →
  default (mk_hash ∅ None) (live_entry now r key) = mk_hash h x.
Proof. by intros [-> | (-> & -> & ->)]. Qed.

Lemma holds_not_expired now r key h x :
  holds now r key h x → expired now (mk_hash h x) = false.
Proof.
  intros [Hl | (_ & _ & ->)]; [|done].
  unfold live_entry in Hl. destruct (hashes r !! key) as [e0|]; [|done].
  destruct (expired now e0) eqn:X; [done|]. by inversion Hl; subst.
Qed.

Lemma hincrby_holds now key field delta r h x :
  holds now r key h x →
  hincrby now key field delta r =
  match hincrby_value (h !! field) delta with
  | Some v =>
      (mk_server (up r)
         (<[key := mk_hash (<[field := BInt v]> h) x]> (hashes r)) (zsets r),
       true)
  | None => (r, false)
  end.
Proof.
  intros [Hl | (Hl & -> & ->)]; unfold hincrby; by rewrite Hl.
Qed.

Lemma incremented_lookup metrics h f :
  incremented metrics h !! f =
  match metrics !! f with
  | Some d =>
      match hincrby_value (h !! f) d with
      | Some v => Some (BInt v)
      | None => h !! f
      end
  | None => h !! f
  end.
Proof.
  unfold incremented. rewrite lookup_merge.
  by destruct (metrics !! f) as [d|], (h !! f) as [b|].
Qed.

Lemma incremented_empty h : incremented ∅ h = h.
Proof.
  apply map_eq. intros f. by rewrite incremented_lookup, lookup_empty.
Qed.

Lemma incremented_insert metrics h i d :
  metrics !! i = None →
  incremented (<[i := d]> metrics) h
  = match hincrby_value (h !! i) d with
    | Some v => <[i := BInt v]> (incremented metrics h)
    | None => incremented metrics h
    end.
Proof.
  intros Hi. apply map_eq. intros f.
  rewrite incremented_lookup.
  destruct (decide (i = f)) as [->|Hne].
  - rewrite lookup_insert_eq.
    destruct (hincrby_value (h !! f) d) as [v|].
    + by rewrite lookup_insert_eq.
    + by rewrite incremented_lookup, Hi.
  - rewrite lookup_insert_ne by done.
    destruct (hincrby_value (h !! i) d) as [v|].
    + rewrite lookup_insert_ne by done. by rewrite incremented_lookup.
    + by rewrite incremented_lookup.
Qed.

(** The state after the whole batch of HINCRBY commands. *)
Lemma increment_all_spec now key metrics r h x :
  holds now r key h x →
  holds now (fst (increment_all now key metrics r)) key
    (incremented metrics h) x
  ∧ (snd (increment_all now key metrics r) = true
     ↔ ∀ f d, metrics !! f = Some d → incrementable h f d).
Proof.
  intros Hh. pose proof (holds_not_expired _ _ _ _ _ Hh) as Hx.
  unfold increment_all.
  apply (map_fold_weak_ind
    (λ (acc : server * bool) (m : gmap string Z),
       holds now (fst acc) key (incremented m h) x
       ∧ (snd acc = true ↔ ∀ f d, m !! f = Some d → incrementable h f d))).
  - rewrite incremented_empty. split; [done|]. split; [|done].
    intros _ f d Hf. by rewrite lookup_empty in Hf.
  - intros i d m [r1 ok] Hi [Hh1 Hok]. cbn [fst snd] in *.
    rewrite (hincrby_holds _ _ _ _ _ _ _ Hh1).
    assert (Hsame : incremented m h !! i = h !! i)
      by (by rewrite incremented_lookup, Hi).
    rewrite Hsame, (incremented_insert _ _ _ _ Hi).
    assert (Hdom : (∀ f d0, <[i := d]> m !! f = Some d0 → incrementable h f d0)
                   ↔ incrementable h i d
                     ∧ ∀ f d0, m !! f = Some d0 → incrementable h f d0).
    { split.
      - intros Hall. split.
        + apply Hall. by rewrite lookup_insert_eq.
        + intros f d0 Hf. apply Hall.
          rewrite lookup_insert_ne; [done|]. intros ->. congruence.
      - intros [H1 H2] f d0 Hf.
        destruct (decide (i = f)) as [->|Hne].
        + rewrite lookup_insert_eq in Hf. by inversion Hf; subst.
        + rewrite lookup_insert_ne in Hf by done. by apply H2. }
    destruct (hincrby_value (h !! i) d) as [v|] eqn:Hv; cbn [fst snd].
    + assert (Hacc : incrementable h i d)
        by (unfold incrementable; rewrite Hv; by eexists).
      split.
      * left. unfold live_entry. cbn [hashes]. rewrite lookup_insert_eq.
        unfold expired in *. cbn [expiry] in *. by rewrite Hx.
      * rewrite Hdom, andb_true_l, Hok. tauto.
    + assert (Hrej : ¬ incrementable h i d).
      { unfold incrementable. rewrite Hv. by intros [? Hno]. }
      split; [done|]. rewrite Hdom. split; [done | tauto].
Qed.

Lemma incrementable_spec h f d :
  incrementable h f d ↔
  in_int64 d = true
  ∧ (h !! f = None
     ∨ ∃ z, h !! f = Some (BInt z) ∧ in_int64 z = true
            ∧ in_int64 (z + d) = true).
Proof.
  unfold incrementable, hincrby_value. split.
  - intros [v Hv]. destruct (in_int64 d); [|done]. split; [done|].
    simpl in Hv. destruct (h !! f) as [[z|z0|q|s]|]; try done; [|by left].
    destruct (in_int64 z) eqn:Hz; [|done].
    destruct (in_int64 (z + d)) eqn:Hs; [|done]. right. by exists z.
  - intros [-> [-> | (z & -> & -> & ->)]]; simpl; by eexists.
Qed.

Lemma hincrby_value_views v delta :
  hincrby_value (Some (BInt v)) delta
  = if in_int64 delta && in_int64 v && in_int64 (v + delta)
    then Some (v + delta) else None.
Proof.
  unfold hincrby_value.
  by destruct (in_int64 delta), (in_int64 v), (in_int64 (v + delta)).
Qed.

End increment_fold.

(** X5.  A batch of increments on a reachable backend.  A command is
    accepted when its delta fits in a signed 64-bit integer and the field
    is missing or holds a 64-bit integer whose sum with the delta fits as
    well.  Every accepted command sets its field to the sum (a missing
    field starts from 0); every refused command leaves its field alone,
    and the other commands of the batch are applied all the same; the
    fields the batch does not name and the expiry stay (a missing or
    expired entry counts as empty and without expiry).  The call reports
    success exactly when every command of the batch is accepted. *)
Theorem increment_batch (self : RedisCache.config) (now : Z) (vid : string)
    (metrics : gmap string Z) (r : Redis.server) :
  Redis.up r = true →
  let key := RedisCache.metrics_key self vid in
  let e := default (Redis.mk_hash ∅ None) (Redis.live_entry now r key) in
  let res := RedisCache.increment_metrics self now vid metrics r in
  let e' := default (Redis.mk_hash ∅ None)
              (Redis.live_entry now (snd res) key) in
  Redis.expiry e' = Redis.expiry e
  ∧ (∀ f, metrics !! f = None → Redis.fields e' !! f = Redis.fields e !! f)
  ∧ (∀ f d, metrics !! f = Some d → Redis.fields e !! f = None →
            Redis.in_int64 d = true →
            Redis.fields e' !! f = Some (BInt d))
  ∧ (∀ f d z, metrics !! f = Some d → Redis.fields e !! f = Some (BInt z) →
              Redis.in_int64 d = true → Redis.in_int64 z = true →
              Redis.in_int64 (z + d) = true →
              Redis.fields e' !! f = Some (BInt (z + d)))
  ∧ (∀ f d, metrics !! f = Some d →
            ¬ RedisCache.incrementable (Redis.fields e) f d →
            Redis.fields e' !! f = Redis.fields e !! f)
  ∧ (fst res = true
     ↔ ∀ f d, metrics !! f = Some d →
              RedisCache.incrementable (Redis.fields e) f d)
  ∧ (∀ f d, RedisCache.incrementable (Redis.fields e) f d
            ↔ Redis.in_int64 d = true
              ∧ (Redis.fields e !! f = None
                 ∨ ∃ z, Redis.fields e !! f = Some (BInt z)
                        ∧ Redis.in_int64 z = true
                        ∧ Redis.in_int64 (z + d) = true)).
Proof.
  intros Hup key e res e'. unfold e', res.
  rewrite increment_result by done. fold key. cbn [fst snd].
  destruct (increment_all_spec now key metrics r _ _ (holds_default now r key))
    as [Hres Hok].
  fold e in Hres, Hok. rewrite (holds_unique _ _ _ _ _ Hres).
  cbn [Redis.fields Redis.expiry].
  split; [done|].
  split; [intros f Hf; by rewrite incremented_lookup, Hf|].
  split.
  { intros f d Hf Hn Hd.
    by rewrite incremented_lookup, Hf, Hn, hincrby_value_missing. }
  split.
  { intros f d z Hf Hz Hd Hz' Hs.
    by rewrite incremented_lookup, Hf, Hz, hincrby_value_int. }
  split.
  { intros f d Hf Hno. rewrite incremented_lookup, Hf.
    unfold RedisCache.incrementable in Hno.
    destruct (Redis.hincrby_value (Redis.fields e !! f) d); [|done].
    exfalso. apply Hno. by eexists. }
  split; [exact Hok|]. intros f d. apply incrementable_spec.
Qed.

Lemma increment_batch_witness :
  Redis.fields
    (default (Redis.mk_hash ∅ None)
       (Redis.live_entry 5
          (snd (RedisCache.increment_metrics Examples.cfg 5 "v1"
                  {[ "views" := 1; "likes" := 2 ]} Examples.server_corrupt))
          (RedisCache.metrics_key Examples.cfg "v1")))
    !! "likes"
  = Some (BInt (1 + 2)).
Proof.
  refine (proj1 (proj2 (proj2 (proj2
            (increment_batch Examples.cfg 5 "v1"
               {[ "views" := 1; "likes" := 2 ]} Examples.server_corrupt _))))
            "likes" 2 1 _ _ _ _ _).
  - reflexivity.
  - by_evaluation.
  - by_evaluation.
  - reflexivity.
  - reflexivity.
  - reflexivity.
Defined.

Lemma views_after_set v l w u c e a (old : gmap string rbytes) :
  ((str <$> RedisCache.metrics_dict v l w u c e a) ∪ old) !! "views"
  = Some (BInt v).
Proof.
  apply lookup_union_Some_l. rewrite lookup_fmap.
  unfold RedisCache.metrics_dict. by simplify_map_eq.
Qed.

(** X6.  Set, then increment, then get.  After a Metrics Record is set
    with a positive effective TTL and its views are incremented by delta
    while the entry is live, a get before the expiry returns the record
    with views + delta and everything else unchanged, provided delta, the
    views and their sum all fit in a signed 64-bit integer; if one of them
    does not, the increment is refused and the get returns the record as
    it was set.  Either way a get after the expiry the set fixed is a
    miss: the increment does not prolong the entry. *)
Theorem set_increment_get (self : RedisCache.config) (now now1 t : Z)
    (vid : string) (v l : Z) (w : Q) (u c : Z) (e a : Q) (ttl : option Z)
    (delta : Z) (r : Redis.server) :
  Redis.up r = true →
  now <= now1 → now1 <= t → now1 < now + RedisCache.effective_ttl self ttl →
  let r1 := snd (RedisCache.set_video_metrics self now vid
                   (RedisCache.metrics_dict v l w u c e a) ttl r) in
  let r2 := snd (RedisCache.increment_metrics self now1 vid
                   {[ "views" := delta ]} r1) in
  let v' := if Redis.in_int64 delta && Redis.in_int64 v
               && Redis.in_int64 (v + delta)
            then v + delta else v in
  (t < now + RedisCache.effective_ttl self ttl →
     RedisCache.get_video_metrics self t vid r2
     = Some (RedisCache.metrics_dict v' l w u c e a))
  ∧ (now + RedisCache.effective_ttl self ttl < t →
     RedisCache.get_video_metrics self t vid r2 = None).
Proof.
  intros Hup H01 H1t Hlive r1 r2 v'.
  set (key := RedisCache.metrics_key self vid).
  set (s := RedisCache.effective_ttl self ttl) in *.
  set (m := RedisCache.metrics_dict v l w u c e a) in *.
  set (F := (str <$> m) ∪ Redis.hgetall_fields now r key).
  assert (Hs : (0 <? s) = true) by (apply Z.ltb_lt; lia).
  assert (Hr1 : Redis.hashes r1 !! key
                = Some (Redis.mk_hash F (Some (now + s)))).
  { unfold r1. rewrite hashes_after_set;
      [|done|apply str_metrics_dict_nonempty].
    simpl. fold key s. rewrite lookup_after_set_expire. by rewrite Hs. }
  assert (Hup1 : Redis.up r1 = true).
  { unfold r1. by rewrite set_keeps_up. }
  assert (Hl1 : Redis.live_entry now1 r1 key
                = Some (Redis.mk_hash F (Some (now + s)))).
  { unfold Redis.live_entry. rewrite Hr1. unfold Redis.expired. simpl.
    by replace (now + s <? now1) with false by (symmetry; apply Z.ltb_ge; lia). }
  pose proof (lookup_str_metrics_dict v l w u c e a
                (Redis.hgetall_fields now r key))
    as (E1 & E2 & E3 & E4 & E5 & E6 & E7).
  fold m F in E1, E2, E3, E4, E5, E6, E7.
  assert (Hv : F !! "views" = Some (BInt v)).
  { apply views_after_set. }
  assert (Hr2 : r2 = fst (Redis.hincrby now1 key "views" delta r1)).
  { unfold r2. by rewrite increment_single. }
  assert (Hup2 : Redis.up r2 = true).
  { rewrite Hr2. by rewrite hincrby_keeps_up. }
  assert (He' : ∃ F', Redis.hashes r2 !! key
                      = Some (Redis.mk_hash F' (Some (now + s)))
                ∧ F' !! "views" = Some (BInt v')
                ∧ ∀ f, f ≠ "views" → F' !! f = F !! f).
  { rewrite Hr2, (hincrby_live _ _ _ _ _ _ Hl1).
    cbn [Redis.fields Redis.expiry]. rewrite Hv, hincrby_value_views.
    fold v'.
    destruct (Redis.in_int64 delta && Redis.in_int64 v
              && Redis.in_int64 (v + delta)); cbn [fst Redis.hashes].
    - exists (<["views" := BInt v']> F). rewrite lookup_insert_eq.
      split; [done|]. split; [by rewrite lookup_insert_eq|].
      intros f Hne. by rewrite lookup_insert_ne.
    - exists F. split; [exact Hr1|]. split; [exact Hv | done]. }
  destruct He' as (F' & He' & Hint & Hoth).
  split; intros Ht.
  - assert (Hf : Redis.hgetall_fields t r2 (RedisCache.metrics_key self vid)
                 = F').
    { unfold Redis.hgetall_fields, Redis.live_entry. fold key. rewrite He'.
      unfold Redis.expired. cbn [Redis.expiry Redis.fields].
      by replace (now + s <? t) with false by (symmetry; apply Z.ltb_ge; lia). }
    apply get_of_fields; rewrite ?Hf.
    + exact Hup2.
    + intros Hemp. rewrite Hemp, lookup_empty in Hint. discriminate Hint.
    + unfold int_get. rewrite Hint. reflexivity.
    + unfold int_get in *. rewrite Hoth; [exact E2 | discriminate].
    + unfold float_get in *. rewrite Hoth; [exact E3 | discriminate].
    + unfold int_get in *. rewrite Hoth; [exact E4 | discriminate].
    + unfold int_get in *. rewrite Hoth; [exact E5 | discriminate].
    + unfold float_get in *. rewrite Hoth; [exact E6 | discriminate].
    + unfold float_get in *. rewrite Hoth; [exact E7 | discriminate].
  - apply get_miss. unfold Redis.hgetall_fields, Redis.live_entry.
    fold key. rewrite He'. unfold Redis.expired. cbn [Redis.expiry].
    by replace (now + s <? t) with true by (symmetry; apply Z.ltb_lt; lia).
Qed.

Lemma set_increment_get_witness :
  RedisCache.get_video_metrics Examples.cfg 130 "v1"
    (snd (RedisCache.increment_metrics Examples.cfg 110 "v1" {[ "views" := 5 ]}
            (snd (RedisCache.set_video_metrics Examples.cfg 100 "v1"
                    Examples.record_v1 (Some 60) Redis.empty_server))))
  = Some (RedisCache.metrics_dict (10 + 5) 2 (50 # 1) 4 1 (1 # 5) (5 # 1)).
Proof.
  refine (proj1 (set_increment_get Examples.cfg 100 110 130 "v1"
            10 2 (50 # 1) 4 1 (1 # 5) (5 # 1) (Some 60) 5 Redis.empty_server
            _ _ _ _) _).
  - reflexivity.
  - lia.
  - lia.
  - vm_compute. reflexivity.
  - vm_compute. reflexivity.
Defined.

(* ===================================================================== *)
(** * Housekeeping, batches and the window                                *)
(* ===================================================================== *)

Section cleanup_facts.

Import Redis RedisCache.

(** A TTL that reads 0: the key is there, and its expiry lies less than
    half a second ahead. *)
Lemma ttl_zero now_ms key ks :
  ttl now_ms key ks = 0 →
  ∃ t, ks !! key = Some (Some t) ∧ now_ms <= t < now_ms + 500.
Proof.
  unfold ttl, present.
  destruct (ks !! key) as [[t|]|]; try done.
  destruct (t <? now_ms) eqn:Hlt; [done|].
  apply Z.ltb_ge in Hlt. intros Hz. exists t. split; [done|].
  assert (Hdiv := Z.div_mod (t - now_ms + 500) 1000).
  assert (Hmod := Z.mod_pos_bound (t - now_ms + 500) 1000).
  lia.
Qed.

Lemma ttl_zero_iff now_ms key ks :
  ttl now_ms key ks = 0 ↔
  ∃ t, ks !! key = Some (Some t) ∧ now_ms <= t < now_ms + 500.
Proof.
  split; [apply ttl_zero|]. intros (t & Hk & Ht).
  unfold ttl, present. rewrite Hk.
  replace (t <? now_ms) with false by (symmetry; apply Z.ltb_ge; lia).
  apply Z.div_small. lia.
Qed.

(** What the loop does to the keys and to the two counters. *)
Lemma cleanup_loop_spec scanned ks cleaned errors :
  let res := cleanup_loop scanned ks cleaned errors in
  let ks' := fst (fst res) in
  (∀ key,
     ks' !! key = ks !! key
     ∨ (ks' !! key = None
        ∧ ∃ p t, p ∈ scanned ∧ p_key p = key
                 ∧ p_ttl_reached p = true ∧ p_del_reached p = true
                 ∧ ks !! key = Some (Some t)
                 ∧ p_at p <= t < p_at p + 500))
  ∧ cleaned <= snd (fst res)
  ∧ errors <= snd res
  ∧ (snd (fst res) - cleaned) + (snd res - errors)
    <= Z.of_nat (length scanned)
  ∧ Z.of_nat (size ks') + (snd (fst res) - cleaned) = Z.of_nat (size ks)
  ∧ (Forall (λ p, p_ttl_reached p = true ∧ p_del_reached p = true) scanned →
     snd res = errors).
Proof.
  revert ks cleaned errors.
  induction scanned as [|p rest IH]; intros ks cleaned errors; cbn zeta.
  - cbn [cleanup_loop fst snd length]. repeat split; try lia. by left.
  - cbn [cleanup_loop].
    assert (Hlen : Z.of_nat (length (p :: rest))
                   = Z.of_nat (length rest) + 1)
      by (cbn [length]; lia).
    assert (Hlift : ∀ (ks0 : keyspace) (key : string),
              (ks0 !! key = None
               ∧ ∃ p0 t, p0 ∈ rest ∧ p_key p0 = key
                         ∧ p_ttl_reached p0 = true ∧ p_del_reached p0 = true
                         ∧ ks !! key = Some (Some t)
                         ∧ p_at p0 <= t < p_at p0 + 500) →
              ks0 !! key = None
              ∧ ∃ p0 t, p0 ∈ p :: rest ∧ p_key p0 = key
                        ∧ p_ttl_reached p0 = true ∧ p_del_reached p0 = true
                        ∧ ks !! key = Some (Some t)
                        ∧ p_at p0 <= t < p_at p0 + 500).
    { intros ks0 key (Hn & p0 & t & Hin & Hrest). split; [done|].
      exists p0, t. split; [by right | done]. }
    destruct (p_ttl_reached p) eqn:Httl; cbn [negb].
    + destruct (ttl (p_at p) (p_key p) ks =? 0) eqn:Hz.
      * destruct (p_del_reached p) eqn:Hdel.
        -- apply Z.eqb_eq, ttl_zero in Hz as (t & Hk & Ht).
           destruct (IH (del (p_key p) ks) (cleaned + 1) errors)
             as (H1 & H2 & H3 & H4 & H5 & H6).
           rewrite Hlen. split; [|split; [lia|split; [lia|split; [lia|split]]]].
           ++ intros key. destruct (decide (p_key p = key)) as [Heq|Hne].
              ** right.
                 assert (Hgone : fst (fst (cleanup_loop rest (del (p_key p) ks)
                                             (cleaned + 1) errors)) !! key
                                 = None).
                 { destruct (H1 key) as [Hsame | [Hn _]]; [|done].
                   rewrite Hsame. unfold del. subst key.
                   by rewrite lookup_delete_eq. }
                 split; [exact Hgone|]. exists p, t.
                 split; [left|]. subst key. done.
              ** destruct (H1 key) as [Hsame | (Hn & p0 & t0 & Hin & Hp0 & Hr1 & Hr2 & Hk0 & Ht0)].
                 --- left. rewrite Hsame. unfold del.
                     by rewrite lookup_delete_ne.
                 --- right. apply Hlift. split; [done|].
                     exists p0, t0. unfold del in Hk0.
                     rewrite lookup_delete_ne in Hk0 by done.
                     split; [done|]. split; [done|]. split; [done|].
                     split; [done|]. split; [done | lia].
           ++ assert (Hsz : size (del (p_key p) ks) = Nat.pred (size ks))
                by (unfold del; by rewrite map_size_delete, Hk).
              rewrite Hsz in H5.
              assert (Hpos : (0 < size ks)%nat).
              { destruct (decide (size ks = 0%nat)) as [H0|H0]; [|lia].
                apply map_size_empty_inv in H0. by rewrite H0 in Hk. }
              lia.
           ++ intros Hall. apply Forall_cons in Hall as [_ Hall]. by apply H6.
        -- destruct (IH ks cleaned (errors + 1)) as (H1 & H2 & H3 & H4 & H5 & H6).
           rewrite Hlen. split; [|split; [lia|split; [lia|split; [lia|split]]]].
           ++ intros key. destruct (H1 key) as [Hsame | Hgone];
                [by left | right; by apply Hlift].
           ++ lia.
           ++ intros Hall. apply Forall_cons in Hall as [[_ Hd] _]. congruence.
      * destruct (IH ks cleaned errors) as (H1 & H2 & H3 & H4 & H5 & H6).
        rewrite Hlen. split; [|split; [lia|split; [lia|split; [lia|split]]]].
        -- intros key. destruct (H1 key) as [Hsame | Hgone];
             [by left | right; by apply Hlift].
        -- lia.
        -- intros Hall. apply Forall_cons in Hall as [_ Hall]. by apply H6.
    + destruct (IH ks cleaned (errors + 1)) as (H1 & H2 & H3 & H4 & H5 & H6).
      rewrite Hlen. split; [|split; [lia|split; [lia|split; [lia|split]]]].
      * intros key. destruct (H1 key) as [Hsame | Hgone];
          [by left | right; by apply Hlift].
      * lia.
      * intros Hall. apply Forall_cons in Hall as [[Ht _] _]. congruence.
Qed.

End cleanup_facts.

(** X7.  What the sweep [cleanup_old_data] removes.  Time is counted in
    milliseconds.  A key is removed only when a round of the loop found it
    present with an expiry less than 500 ms ahead, which is when TTL reads
    0: a key without expiry is never removed, nor is a key with half a
    second or more to live at every round, and a key that has expired is
    not counted (its TTL reads -2).  The two counters are not negative and
    add up to at most the number of rounds; when the scan ends normally
    the cleaned count is the number of keys removed, and it comes with no
    error if every command reached the server; when the scan raises the
    result is (0, 0) although the keys removed so far stay removed. *)
Theorem cleanup_removes_only_expiring_keys
    (scanned : list RedisCache.probe) (scan_completes : bool)
    (ks : Redis.keyspace) :
  let res := RedisCache.cleanup_old_data scanned scan_completes ks in
  (∀ key,
     snd res !! key = ks !! key
     ∨ (snd res !! key = None
        ∧ ∃ p t, p ∈ scanned ∧ RedisCache.p_key p = key
                 ∧ ks !! key = Some (Some t)
                 ∧ Redis.ttl (RedisCache.p_at p) key ks = 0
                 ∧ RedisCache.p_at p <= t < RedisCache.p_at p + 500))
  ∧ (∀ key, ks !! key = Some None → snd res !! key = Some None)
  ∧ (∀ key t, ks !! key = Some (Some t) →
       (∀ p, p ∈ scanned → RedisCache.p_key p = key →
             t < RedisCache.p_at p ∨ RedisCache.p_at p + 500 <= t) →
       snd res !! key = Some (Some t))
  ∧ 0 <= fst (fst res) ∧ 0 <= snd (fst res)
  ∧ fst (fst res) + snd (fst res) <= Z.of_nat (length scanned)
  ∧ (scan_completes = true →
       Z.of_nat (size (snd res)) + fst (fst res) = Z.of_nat (size ks)
       ∧ (Forall (λ p, RedisCache.p_ttl_reached p = true
                       ∧ RedisCache.p_del_reached p = true) scanned →
          snd (fst res) = 0))
  ∧ (scan_completes = false → fst res = (0, 0)).
Proof.
  intros res. unfold res, RedisCache.cleanup_old_data.
  pose proof (cleanup_loop_spec scanned ks 0 0) as (H1 & H2 & H3 & H4 & H5 & H6).
  destruct (RedisCache.cleanup_loop scanned ks 0 0) as [[ks' cleaned] errors].
  cbn [fst snd] in *.
  assert (Hkeys : ∀ key,
            ks' !! key = ks !! key
            ∨ (ks' !! key = None
               ∧ ∃ p t, p ∈ scanned ∧ RedisCache.p_key p = key
                        ∧ ks !! key = Some (Some t)
                        ∧ Redis.ttl (RedisCache.p_at p) key ks = 0
                        ∧ RedisCache.p_at p <= t < RedisCache.p_at p + 500)).
  { intros key. destruct (H1 key)
      as [Hsame | (Hn & p & t & Hin & Hp & _ & _ & Hk & Ht)]; [by left|].
    right. split; [done|]. exists p, t. repeat split; try done; try lia.
    apply ttl_zero_iff. exists t. split; [done | lia]. }
  assert (Hfst : snd (if scan_completes
                      then ((cleaned, errors), ks') else ((0, 0), ks')) = ks')
    by by destruct scan_completes.
  rewrite Hfst.
  split; [exact Hkeys|]. split.
  { intros key Hk. destruct (Hkeys key) as [-> | (_ & p & t & _ & _ & Hk' & _)];
      [done | congruence]. }
  split.
  { intros key t Hk Hfar.
    destruct (Hkeys key) as [-> | (_ & p & t' & Hin & Hp & Hk' & _ & Ht')];
      [done|].
    assert (t' = t) as -> by congruence.
    destruct (Hfar p Hin Hp); lia. }
  destruct scan_completes; cbn [fst snd].
  - split; [lia|]. split; [lia|]. split; [lia|]. split; [|done].
    intros _. split; [lia|]. intros Hall. rewrite (H6 Hall). done.
  - split; [lia|]. split; [lia|]. split; [lia|]. split; [done|]. done.
Qed.

Section batch_facts.

Import Redis RedisCache.

Context {Event : Type}.
Variable dumps : list Event → string.
Variable loads : string → list Event.

Lemma string_get_after_set now t key value st :
  string_get t key (string_set_expire now key value 300 st)
  = if now + 300 <? t then None else Some value.
Proof.
  unfold string_get, string_set_expire. simpl. by rewrite lookup_insert_eq.
Qed.

Lemma string_get_after_del t key st :
  string_get t key (string_del key st) = None.
Proof. unfold string_get, string_del. simpl. by rewrite lookup_delete_eq. Qed.

Lemma get_and_delete_up self t batch_id st :
  s_up st = true →
  get_and_delete_batch loads self t batch_id st
  = (match string_get t (batch_key self batch_id) st with
     | None => None
     | Some "" => None
     | Some payload => Some (loads payload)
     end, string_del (batch_key self batch_id) st).
Proof.
  intros Hup. unfold get_and_delete_batch. rewrite Hup. simpl.
  by destruct (string_get t (batch_key self batch_id) st) as [[|c p]|].
Qed.

End batch_facts.

(** X8.  Batches round-trip once.  On a reachable backend a stored batch
    whose serialisation [json.loads] reads back comes out of
    [get_and_delete_batch] unchanged within its 300 seconds, never after
    them, and never a second time. *)
Theorem batch_round_trip_once {Event : Type} (dumps : list Event → string)
    (loads : string → list Event) (self : RedisCache.config) (now t : Z)
    (events : list Event) (batch_id : string) (st : Redis.string_store) :
  Redis.s_up st = true →
  loads (dumps events) = events → dumps events ≠ "" → now <= t →
  let st1 := snd (RedisCache.store_event_batch dumps self now events batch_id st) in
  fst (RedisCache.store_event_batch dumps self now events batch_id st) = true
  ∧ (t < now + 300 →
       fst (RedisCache.get_and_delete_batch loads self t batch_id st1)
       = Some events)
  ∧ (now + 300 < t →
       fst (RedisCache.get_and_delete_batch loads self t batch_id st1) = None)
  ∧ (∀ t', fst (RedisCache.get_and_delete_batch loads self t' batch_id
                  (snd (RedisCache.get_and_delete_batch loads self t batch_id st1)))
           = None).
Proof.
  intros Hup Hrt Hne Hle st1.
  assert (Hst1 : st1 = Redis.string_set_expire now
                         (RedisCache.batch_key self batch_id) (dumps events) 300 st).
  { unfold st1, RedisCache.store_event_batch. by rewrite Hup. }
  assert (Hup1 : Redis.s_up st1 = true) by (by rewrite Hst1).
  split; [unfold RedisCache.store_event_batch; by rewrite Hup|].
  rewrite (get_and_delete_up loads self t batch_id st1 Hup1).
  cbn [fst snd]. rewrite Hst1 at 1 2. rewrite string_get_after_set.
  split; [|split].
  - intros Ht.
    replace (now + 300 <? t) with false by (symmetry; apply Z.ltb_ge; lia).
    destruct (dumps events) as [|c p] eqn:Hd; [done|]. by rewrite Hrt.
  - intros Ht.
    by replace (now + 300 <? t) with true by (symmetry; apply Z.ltb_lt; lia).
  - intros t'. rewrite get_and_delete_up by done.
    cbn [fst]. by rewrite string_get_after_del.
Qed.

Lemma batch_round_trip_once_witness :
  fst (RedisCache.get_and_delete_batch Examples.batch_loads Examples.cfg 50 "b1"
         (snd (RedisCache.store_event_batch Examples.batch_dumps Examples.cfg 0
                 [200; 400] "b1" Redis.empty_strings)))
  = Some [200; 400].
Proof.
  refine (proj1 (proj2 (batch_round_trip_once Examples.batch_dumps
            Examples.batch_loads Examples.cfg 0 50 [200; 400] "b1"
            Redis.empty_strings _ _ _ _)) _).
  - reflexivity.
  - vm_compute. reflexivity.
  - vm_compute. discriminate.
  - lia.
  - lia.
Defined.

Section window_more.

Import Redis RedisCache.

Lemma elem_of_zinsert member score z p :
  p ∈ zinsert member score z ↔ p = (member, score) ∨ p ∈ z.
Proof.
  induction z as [|[m s] z IH]; simpl.
  - rewrite list_elem_of_singleton. split; [by left | intros [?|H]; [done|]].
    by apply elem_of_nil in H.
  - destruct ((score <? s) || ((score =? s) && String.ltb member m)).
    + by rewrite elem_of_cons.
    + rewrite !elem_of_cons, IH. tauto.
Qed.

Lemma zinsert_members member score z :
  map fst (zinsert member score z) ≡ₚ member :: map fst z.
Proof.
  induction z as [|[m s] z IH]; simpl; [done|].
  destruct ((score <? s) || ((score =? s) && String.ltb member m)); simpl;
    [done|].
  rewrite IH. apply Permutation_swap.
Qed.

Lemma filter_members_nodup (P : string * Z → Prop) `{!∀ p, Decision (P p)} z :
  NoDup (map fst z) → NoDup (map fst (filter P z)).
Proof.
  induction z as [|p z IH]; simpl; [done|].
  intros Hnd. apply NoDup_cons in Hnd as [Hp Hnd].
  rewrite filter_cons. destruct (decide (P p)); [|by apply IH].
  simpl. apply NoDup_cons. split; [|by apply IH].
  intros Hin. apply Hp.
  change (map fst ?l) with (fst <$> l) in *.
  apply list_elem_of_fmap in Hin as (q & Hq & Hin).
  apply list_elem_of_filter in Hin as [_ Hin].
  apply list_elem_of_fmap. eauto.
Qed.

Lemma zadd_set_members_nodup member score z :
  NoDup (map fst z) → NoDup (map fst (zadd_set member score z)).
Proof.
  intros Hnd. unfold zadd_set. rewrite zinsert_members.
  apply NoDup_cons. split; [|by apply filter_members_nodup].
  change (map fst ?l) with (fst <$> l).
  intros Hin. apply list_elem_of_fmap in Hin as ([m s] & Hm & Hin).
  apply list_elem_of_filter in Hin as [Hp _]. simpl in *. subst m.
  apply Is_true_true in Hp. rewrite String.eqb_refl in Hp. done.
Qed.

Lemma elem_of_zadd_set member score z m s :
  (m, s) ∈ zadd_set member score z ↔
  (m = member ∧ s = score) ∨ (m ≠ member ∧ (m, s) ∈ z).
Proof.
  unfold zadd_set. rewrite elem_of_zinsert, list_elem_of_filter. simpl.
  split.
  - intros [[= -> ->] | [Hp Hin]]; [by left|]. right. split; [|done].
    intros ->. apply Is_true_true in Hp. by rewrite String.eqb_refl in Hp.
  - intros [[-> ->] | [Hne Hin]]; [by left|]. right. split; [|done].
    apply Is_true_true, negb_true_iff. by apply String.eqb_neq.
Qed.

Lemma add_window_frame {Event : Type} (dumps : Event → string)
    (ets : Event → option Z) self now vid event w r :
  let r' := snd (add_to_processing_window dumps ets self now vid event w r) in
  up r' = up r ∧ hashes r' = hashes r
  ∧ ∀ k, k ≠ window_key self vid → zsets r' !! k = zsets r !! k.
Proof.
  assert (Hst : ∀ z r0 k, k ≠ window_key self vid →
            zsets (store_zset (window_key self vid) z r0) !! k = zsets r0 !! k).
  { intros z r0 k Hne. unfold store_zset. simpl.
    destruct z; [by rewrite lookup_delete_ne | by rewrite lookup_insert_ne]. }
  unfold add_to_processing_window, add_to_processing_window_body.
  unfold zadd, zremrangebyscore_upto, mbind, outcome_bind.
  destruct (up r) eqn:Hup; cbn [bind snd store_zset up].
  - rewrite Hup. cbn [snd store_zset up hashes].
    split; [done|]. split; [done|].
    intros k Hne. by rewrite !Hst.
  - rewrite Hup. by repeat split.
Qed.

End window_more.

(** X9.  A window holds each event at most once.  After a successful add
    the members are pairwise distinct if they were before, and the
    retained pairs are exactly: the added event under its own score, and
    every other earlier member under its old score, each only when its
    score is later than now - window_size.  Adding an event that is
    already in the window therefore moves it to the new score instead of
    storing a second copy. *)
Theorem window_holds_each_event_once {Event : Type} (dumps : Event → string)
    (ets : Event → option Z) (self : RedisCache.config) (now : Z)
    (vid : string) (event : Event) (w : Z) (r r' : Redis.server) :
  NoDup (map fst (Redis.zset_of r (RedisCache.window_key self vid))) →
  RedisCache.add_to_processing_window dumps ets self now vid event w r
    = (true, r') →
  NoDup (map fst (Redis.zset_of r' (RedisCache.window_key self vid)))
  ∧ ∀ m s,
      (m, s) ∈ Redis.zset_of r' (RedisCache.window_key self vid) ↔
      now - w < s
      ∧ ((m = dumps event ∧ s = default now (ets event))
         ∨ (m ≠ dumps event
            ∧ (m, s) ∈ Redis.zset_of r (RedisCache.window_key self vid))).
Proof.
  intros Hnd Hadd.
  destruct (add_window_up _ _ _ _ _ _ _ _ _ Hadd) as [_ ->].
  split.
  - by apply filter_members_nodup, zadd_set_members_nodup.
  - intros m s. rewrite list_elem_of_filter, elem_of_zadd_set. simpl.
    split.
    + intros [Hp H]. split; [|done]. apply Is_true_true, Z.ltb_lt in Hp. lia.
    + intros [Hp H]. split; [|done]. apply Is_true_true, Z.ltb_lt. lia.
Qed.

Lemma window_holds_each_event_once_witness :
  NoDup (map fst (Redis.zset_of
                    (Examples.add_at 400 (Examples.add_at 400 Redis.empty_server))
                    (RedisCache.window_key Examples.cfg "v1"))).
Proof.
  refine (proj1 (window_holds_each_event_once Examples.ts_dumps
            Examples.ts_timestamp Examples.cfg 400 "v1" 400 300
            (Examples.add_at 400 Redis.empty_server) _ _ _)).
  - vm_compute. repeat constructor; rewrite ?elem_of_nil; tauto.
  - by_evaluation.
Defined.

(** X10.  An add to the window of one video touches nothing else: the
    cached metrics of every video and the window snapshot of every other
    video are as before, whether the add succeeds or fails. *)
Theorem window_add_touches_one_window {Event : Type} (dumps : Event → string)
    (loads : string → Event) (ets : Event → option Z)
    (self : RedisCache.config) (now t : Z) (vid other : string)
    (event : Event) (w : Z) (r : Redis.server) :
  let r' := snd (RedisCache.add_to_processing_window dumps ets self now vid
                   event w r) in
  RedisCache.get_video_metrics self t other r'
    = RedisCache.get_video_metrics self t other r
  ∧ (other ≠ vid →
     RedisCache.get_window_events loads self other r'
     = RedisCache.get_window_events loads self other r).
Proof.
  intros r'.
  destruct (add_window_frame dumps ets self now vid event w r) as (Hup & Hh & Hz).
  fold r' in Hup, Hh, Hz. split.
  - apply get_ext; [done | by rewrite Hh].
  - intros Hne.
    unfold RedisCache.get_window_events, Redis.zrange_all, Redis.zset_of.
    rewrite Hup, Hz; [done|]. intros H. by apply window_key_inj in H.
Qed.

(* ===================================================================== *)
(** * Further properties of the serving layer                             *)
(* ===================================================================== *)

(** X11.  Cache-fresh path: when the cache has the record, the resolver
    returns it at once and changes nothing; the durable store plays no
    part, so this holds without a handler or with one that would fail. *)
Theorem resolver_serves_cache_first (self : MetricsService.service) (now : Z)
    (vid : string) (r : Redis.server) (m : gmap string pyval) :
  RedisCache.get_video_metrics (MetricsService.redis self) now vid r = Some m →
  MetricsService.get_video_metrics self now vid r = (Ret m, r).
Proof.
  intros H.
  unfold MetricsService.get_video_metrics, MetricsService.get_video_metrics_body.
  rewrite H.
  destruct (get_hit_inv _ _ _ _ _ H)
    as (_ & _ & v & l & w & u & c & e & a & _ & _ & _ & _ & _ & _ & _ & ->).
  cbn [MetricsService.truthy_opt default]. by rewrite metrics_dict_truthy.
Qed.

Lemma resolver_serves_cache_first_witness :
  MetricsService.get_video_metrics Examples.service_no_handler 200 "v1"
    Examples.server_v1
  = (Ret Examples.record_v1, Examples.server_v1).
Proof.
  apply (resolver_serves_cache_first Examples.service_no_handler 200 "v1"
           Examples.server_v1 Examples.record_v1).
  by_evaluation.
Defined.

(** X12.  Fallback path: on a miss with a reachable cache, the durable
    store is asked for this video over [now - 300, now] in the events
    table; a Metrics Record it yields is returned, and any cache get for
    the video within the default TTL then returns that same record. *)
Theorem resolver_repopulates_cache (self : MetricsService.service)
    (bq : MetricsService.bq_get_video_metrics) (now : Z) (vid : string)
    (r : Redis.server) (v l : Z) (w : Q) (u c : Z) (e a : Q) (t : Z) :
  Redis.up r = true →
  RedisCache.get_video_metrics (MetricsService.redis self) now vid r = None →
  MetricsService.bigquery self = Some bq →
  bq vid (now - 300) now (MetricsService.events_table self)
    = Ret (Some (RedisCache.metrics_dict v l w u c e a)) →
  now <= t < now + RedisCache.effective_ttl (MetricsService.redis self) None →
  fst (MetricsService.get_video_metrics self now vid r)
    = Ret (RedisCache.metrics_dict v l w u c e a)
  ∧ RedisCache.get_video_metrics (MetricsService.redis self) t vid
      (snd (MetricsService.get_video_metrics self now vid r))
    = Some (RedisCache.metrics_dict v l w u c e a).
Proof.
  intros Hup Hmiss Hbq Hrows Ht.
  unfold MetricsService.get_video_metrics, MetricsService.get_video_metrics_body.
  rewrite Hmiss, Hbq. cbn [MetricsService.truthy_opt]. rewrite Hrows.
  cbn [MetricsService.truthy_opt default]. rewrite metrics_dict_truthy.
  cbn [fst snd try_except]. split; [done|].
  destruct (set_then_get_general (MetricsService.redis self) now vid
              v l w u c e a None r t Hup (proj1 Ht)) as (_ & Hget & _).
  apply Hget. lia.
Qed.

Lemma resolver_repopulates_cache_witness :
  RedisCache.get_video_metrics Examples.cfg 1001 "v1"
    (snd (MetricsService.get_video_metrics Examples.service_record_v1 1000
            "v1" Redis.empty_server))
  = Some Examples.record_v1.
Proof.
  refine (proj2 (resolver_repopulates_cache Examples.service_record_v1
            Examples.bq_record_v1 1000 "v1" Redis.empty_server
            10 2 (50 # 1) 4 1 (1 # 5) (5 # 1) 1001 _ _ _ _ _)).
  - reflexivity.
  - by_evaluation.
  - reflexivity.
  - reflexivity.
  - vm_compute. split; [discriminate | reflexivity].
Defined.

Section resolver_more.

Import Redis MetricsService.

Lemma truthy_opt_false (m : option (gmap string pyval)) :
  m = None ∨ m = Some ∅ → truthy_opt m = false.
Proof. intros [-> | ->]; [done|]. unfold truthy_opt, truthy. by rewrite bool_decide_eq_true_2. Qed.

Lemma truthy_nonempty (m : gmap string pyval) : m ≠ ∅ → truthy m = true.
Proof. intros H. unfold truthy. by rewrite bool_decide_eq_false_2. Qed.

End resolver_more.

(** X13.  Every resolver call that finds nothing ends in HTTP 500 with the
    cache untouched: on a cache miss, a missing handler, a handler that
    raises, and a handler that yields no record all give "Internal server
    error".  No call at all ends in a 404. *)
Theorem resolver_misses_end_in_500 (self : MetricsService.service) (now : Z)
    (vid : string) (r : Redis.server) :
  (RedisCache.get_video_metrics (MetricsService.redis self) now vid r = None →
   (MetricsService.bigquery self = None
    ∨ ∃ bq, MetricsService.bigquery self = Some bq
            ∧ ((∃ ex, bq vid (now - 300) now (MetricsService.events_table self)
                      = Raise ex)
               ∨ bq vid (now - 300) now (MetricsService.events_table self)
                 = Ret None
               ∨ bq vid (now - 300) now (MetricsService.events_table self)
                 = Ret (Some ∅))) →
   MetricsService.get_video_metrics self now vid r
   = (Raise (HTTPException 500 "Internal server error"), r))
  ∧ (∀ detail, fst (MetricsService.get_video_metrics self now vid r)
               ≠ Raise (HTTPException 404 detail)).
Proof.
  split.
  - intros Hmiss Hcase.
    unfold MetricsService.get_video_metrics, MetricsService.get_video_metrics_body.
    rewrite Hmiss. cbn [MetricsService.truthy_opt].
    destruct Hcase as [-> | (bq & -> & [[ex ->] | [-> | ->]])]; done.
  - intros detail.
    destruct (resolver_outcomes self now vid r) as [[m ->] | ->]; discriminate.
Qed.

Lemma resolver_misses_end_in_500_witness :
  MetricsService.get_video_metrics Examples.service_no_handler 1000 "v1"
    Redis.empty_server
  = (Raise (HTTPException 500 "Internal server error"), Redis.empty_server).
Proof.
  refine (proj1 (resolver_misses_end_in_500 Examples.service_no_handler 1000
                   "v1" Redis.empty_server) _ _).
  - by_evaluation.
  - left. reflexivity.
Defined.

(** X14.  An unreachable cache does not stop the resolver: the failed get
    counts as a miss, the durable store is asked, and a non-empty record
    it yields is returned; the failed attempt to cache it goes unnoticed
    and the store of the cache is unchanged. *)
Theorem resolver_survives_cache_outage (self : MetricsService.service)
    (bq : MetricsService.bq_get_video_metrics) (now : Z) (vid : string)
    (r : Redis.server) (m : gmap string pyval) :
  Redis.up r = false →
  MetricsService.bigquery self = Some bq →
  bq vid (now - 300) now (MetricsService.events_table self) = Ret (Some m) →
  m ≠ ∅ →
  MetricsService.get_video_metrics self now vid r = (Ret m, r).
Proof.
  intros Hup Hbq Hrows Hne.
  unfold MetricsService.get_video_metrics, MetricsService.get_video_metrics_body.
  rewrite (get_down _ _ _ _ Hup), Hbq. cbn [MetricsService.truthy_opt].
  rewrite Hrows. cbn [MetricsService.truthy_opt default].
  rewrite truthy_nonempty by done. by rewrite set_down.
Qed.

Lemma resolver_survives_cache_outage_witness :
  MetricsService.get_video_metrics Examples.service_record_v1 1000 "v1"
    Examples.server_down
  = (Ret Examples.record_v1, Examples.server_down).
Proof.
  apply (resolver_survives_cache_outage Examples.service_record_v1
           Examples.bq_record_v1 1000 "v1" Examples.server_down
           Examples.record_v1).
  - reflexivity.
  - reflexivity.
  - reflexivity.
  - intros H. apply (f_equal (λ x : gmap string pyval, x !! "views")) in H.
    vm_compute in H. discriminate.
Defined.

(** X15.  Update, then resolve: after [update_metrics] stores a Metrics
    Record on a reachable backend, every resolver call for the video
    within the default TTL returns that record from the cache and leaves
    the store as it is, whatever the durable store holds. *)
Theorem update_then_resolve (self : MetricsService.service) (now t : Z)
    (vid : string) (v l : Z) (w : Q) (u c : Z) (e a : Q) (r : Redis.server) :
  Redis.up r = true →
  now <= t < now + RedisCache.effective_ttl (MetricsService.redis self) None →
  let res := MetricsService.update_metrics self now vid
               (RedisCache.metrics_dict v l w u c e a) r in
  fst res = true
  ∧ MetricsService.get_video_metrics self t vid (snd res)
    = (Ret (RedisCache.metrics_dict v l w u c e a), snd res).
Proof.
  intros Hup Ht res. unfold res, MetricsService.update_metrics.
  destruct (set_then_get_general (MetricsService.redis self) now vid
              v l w u c e a None r t Hup (proj1 Ht)) as (Hok & Hget & _).
  split; [exact Hok|]. apply resolver_cache_hit. apply Hget. lia.
Qed.

Lemma update_then_resolve_witness :
  MetricsService.get_video_metrics Examples.service_no_handler 200 "v1"
    (snd (MetricsService.update_metrics Examples.service_no_handler 100 "v1"
            Examples.record_v1 Redis.empty_server))
  = (Ret Examples.record_v1,
     snd (MetricsService.update_metrics Examples.service_no_handler 100 "v1"
            Examples.record_v1 Redis.empty_server)).
Proof.
  refine (proj2 (update_then_resolve Examples.service_no_handler 100 200 "v1"
                   10 2 (50 # 1) 4 1 (1 # 5) (5 # 1) Redis.empty_server _ _)).
  - reflexivity.
  - vm_compute. split; [discriminate | reflexivity].
Defined.

(** X16.  The range resolver of the service keeps its errors apart: no
    handler is a 500 "BigQuery handler not configured", no record from the
    store is a 404, a record is returned as it is, an HTTPException raised
    by the handler reaches the caller unchanged, and every other exception
    becomes a 500 "Internal server error". *)
Theorem range_resolver_outcomes (self : MetricsService.service) (vid : string)
    (s e : Z) :
  (MetricsService.bigquery self = None →
   MetricsService.get_historical_metrics self vid s e
   = Raise (HTTPException 500 "BigQuery handler not configured"))
  ∧ (∀ bq, MetricsService.bigquery self = Some bq →
       (bq vid s e (MetricsService.aggregated_table self) = Ret None
        ∨ bq vid s e (MetricsService.aggregated_table self) = Ret (Some ∅) →
        MetricsService.get_historical_metrics self vid s e
        = Raise (HTTPException 404 "Historical metrics not found"))
       ∧ (∀ m, bq vid s e (MetricsService.aggregated_table self) = Ret (Some m) →
               m ≠ ∅ →
               MetricsService.get_historical_metrics self vid s e = Ret m)
       ∧ (∀ ex, bq vid s e (MetricsService.aggregated_table self) = Raise ex →
                MetricsService.get_historical_metrics self vid s e
                = if is_HTTPException ex then Raise ex
                  else Raise (HTTPException 500 "Internal server error"))).
Proof.
  unfold MetricsService.get_historical_metrics,
    MetricsService.get_historical_metrics_body.
  split; [by intros ->|].
  intros bq ->. unfold mbind, outcome_bind. split; [|split].
  - intros [-> | ->]; cbn [bind].
    + done.
    + rewrite truthy_opt_false by by right. done.
  - intros m -> Hne. cbn [bind MetricsService.truthy_opt].
    by rewrite truthy_nonempty.
  - intros ex ->. done.
Qed.

Section trending_more.

Import Redis MetricsService.

Lemma split_colon_nonempty s : ∃ w ws, split_colon s = w :: ws.
Proof.
  induction s as [|a s (w & ws & IH)]; simpl; [eauto|].
  rewrite IH. destruct (Ascii.eqb a ":"); eauto.
Qed.

(** Under the default prefix "yt:" the second colon-separated part of a
    metrics key is the literal "video". *)
Lemma default_key_second_part vid :
  index1 (split_colon (RedisCache.metrics_key RedisCache.default_config vid))
  = Ret "video".
Proof.
  unfold RedisCache.metrics_key, RedisCache._get_key. simpl RedisCache.prefix.
  destruct (split_colon_nonempty (vid +:+ ":metrics")) as (w & ws & Hs).
  change ("yt:" +:+ ("video:" +:+ (vid +:+ ":metrics")))
    with (String "y" (String "t" (String ":" (String "v" (String "i"
           (String "d" (String "e" (String "o" (String ":"
              (vid +:+ ":metrics")))))))))).
  cbn [split_colon]. rewrite Hs. reflexivity.
Qed.

Lemma collect_videos_ids now r ks videos :
  collect_videos now r ks = Ret videos →
  ∀ x, x ∈ videos →
    ∃ key, key ∈ ks ∧ index1 (split_colon key) = Ret (t_video_id x).
Proof.
  revert videos. induction ks as [|key ks IH]; simpl; intros videos H x Hx.
  - inversion H; subst. by apply elem_of_nil in Hx.
  - destruct (truthy (hgetall_fields now r key)).
    + unfold mbind, outcome_bind in H.
      destruct (index1 (split_colon key)) as [vid|] eqn:E0; simpl in H; [|done].
      destruct (int_get _ "views") as [v|]; simpl in H; [|done].
      destruct (int_get _ "likes") as [l|]; simpl in H; [|done].
      destruct (float_get _ "engagement_rate") as [e|]; simpl in H; [|done].
      destruct (collect_videos now r ks) as [vs|]; simpl in H; [|done].
      inversion H; subst. apply elem_of_cons in Hx as [-> | Hx].
      * exists key. split; [left | done].
      * destruct (IH vs eq_refl x Hx) as (k & Hk & Hrest).
        exists k. split; [by right | done].
    + destruct (IH videos H x Hx) as (k & Hk & Hrest).
      exists k. split; [by right | done].
Qed.

(** One listed key whose live hash has an unreadable views field makes the
    collection raise. *)
Lemma collect_videos_poisoned now r ks key b :
  key ∈ ks →
  hgetall_fields now r key !! "views" = Some b → (∀ z, int b ≠ Ret z) →
  ∃ ex, collect_videos now r ks = Raise ex.
Proof.
  intros Hin Hb Hbad. induction ks as [|k ks IH]; [by apply elem_of_nil in Hin|].
  simpl. destruct (decide (k = key)) as [->|Hne].
  - assert (Ht : truthy (hgetall_fields now r key) = true).
    { unfold truthy. rewrite bool_decide_eq_false_2; [done|].
      intros He. by rewrite He, lookup_empty in Hb. }
    rewrite Ht. unfold mbind, outcome_bind.
    destruct (index1 (split_colon key)); simpl; [|eauto].
    unfold int_get at 1. rewrite Hb.
    destruct (int b) as [z|ex] eqn:Hint; simpl; [by destruct (Hbad z) | eauto].
  - apply elem_of_cons in Hin as [-> | Hin]; [done|].
    destruct (IH Hin) as [ex Hex].
    destruct (truthy (hgetall_fields now r k)); [|eauto].
    unfold mbind, outcome_bind.
    destruct (index1 (split_colon k)); simpl; [|eauto].
    destruct (int_get _ "views"); simpl; [|eauto].
    destruct (int_get _ "likes"); simpl; [|eauto].
    destruct (float_get _ "engagement_rate"); simpl; [|eauto].
    rewrite Hex. simpl. eauto.
Qed.

End trending_more.

(** X17.  The video id of a trending entry is the second colon-separated
    part of its key.  For keys written by the cache under its default
    prefix "yt:" that part is the literal "video": every entry of every
    trending reply then carries the id "video", whatever the video. *)
Theorem trending_ids_under_default_prefix
    (nan_order : list pyfloat → list nat) (now : Z) (r : Redis.server)
    (vids : list string) (limit : Z)
    (res : list MetricsService.trending_entry) :
  MetricsService.get_trending_videos nan_order now r
    (map (RedisCache.metrics_key RedisCache.default_config) vids) limit
    = Ret res →
  ∀ x, x ∈ res → MetricsService.t_video_id x = "video".
Proof.
  intros H x Hx.
  destruct (trending_inv _ _ _ _ _ _ H) as (videos & Hc & ->).
  assert (Hin : x ∈ videos).
  { unfold MetricsService.slice_to in Hx.
    destruct (0 <=? limit); apply subseteq_take in Hx;
      by apply elem_of_sort_by_engagement in Hx. }
  destruct (collect_videos_ids _ _ _ _ Hc x Hin) as (key & Hkey & Hid).
  change (map ?f ?l) with (f <$> l) in Hkey.
  apply list_elem_of_fmap in Hkey as (vid & -> & _).
  rewrite default_key_second_part in Hid. by inversion Hid.
Qed.

Lemma trending_ids_under_default_prefix_witness :
  MetricsService.t_video_id (MetricsService.mk_trending "video" 8 0 (9 # 10))
  = "video".
Proof.
  refine (trending_ids_under_default_prefix Examples.order_kept 1
            Examples.server_three ["v1"; "v2"; "v3"] 2
            [ MetricsService.mk_trending "video" 5 0 (9 # 10);
              MetricsService.mk_trending "video" 8 0 (9 # 10) ] _ _ _).
  - by_evaluation.
  - right. left.
Defined.

(** X18.  Trending is all or nothing: on an unreachable backend, or when
    one listed key holds a live hash whose views field is not a text that
    [int()] reads, the whole call ends in HTTP 500 "Internal server
    error", however many healthy entries there are. *)
Theorem trending_fails_as_a_whole (nan_order : list pyfloat → list nat)
    (now : Z) (r : Redis.server) (video_keys : list string) (limit : Z) :
  Redis.up r = false
  ∨ (∃ key b, key ∈ video_keys
              ∧ Redis.hgetall_fields now r key !! "views" = Some b
              ∧ ∀ z, int b ≠ Ret z) →
  MetricsService.get_trending_videos nan_order now r video_keys limit
  = Raise (HTTPException 500 "Internal server error").
Proof.
  unfold MetricsService.get_trending_videos,
    MetricsService.get_trending_videos_body.
  intros [Hup | (key & b & Hin & Hb & Hbad)].
  - by rewrite Hup.
  - destruct (Redis.up r); [|done]. cbn [negb].
    destruct video_keys as [|k ks]; [by apply elem_of_nil in Hin|].
    destruct (collect_videos_poisoned now r (k :: ks) key b Hin Hb Hbad)
      as [ex Hex].
    unfold mbind, outcome_bind. by rewrite Hex.
Qed.

Lemma trending_fails_as_a_whole_witness :
  MetricsService.get_trending_videos Examples.order_kept 5
    Examples.server_corrupt
    [RedisCache.metrics_key Examples.cfg "v1"] 10
  = Raise (HTTPException 500 "Internal server error").
Proof.
  apply trending_fails_as_a_whole. right.
  exists (RedisCache.metrics_key Examples.cfg "v1"), (BFloat (3 # 2)).
  split; [left|]. split; [by_evaluation | discriminate].
Defined.

(* ===================================================================== *)
(** * Further properties of the batch jobs                                *)
(* ===================================================================== *)

(** X19.  Every record [_process_aggregation_results] builds carries both
    derived fields as the data model defines them: engagement_rate =
    likes / unique_views and avg_watch_time = total_watch_time /
    unique_views when unique_views > 0, and both 0 when unique_views = 0. *)
Theorem hourly_records_have_derived_fields (df : list BatchProcessor.df_row)
    (timestamp : Z) (vid : string) (data : BatchProcessor.agg_entry) :
  BatchProcessor._process_aggregation_results df timestamp !! vid = Some data →
  BatchProcessor.derived_ok (BatchProcessor.entry_metrics data)
  ∧ BatchProcessor.entry_timestamp data = timestamp.
Proof.
  intros H. split; [by eapply process_aggregation_results_derived|].
  unfold BatchProcessor._process_aggregation_results in H.
  apply (foldl_insert_lookup BatchProcessor.df_video_id) in H
    as [H | (row & _ & _ & ->)]; [by rewrite lookup_empty in H | done].
Qed.

Lemma hourly_records_have_derived_fields_witness :
  BatchProcessor.derived_ok
    (BatchProcessor.mk_metrics 4 2 (50 # 1) 5 2
       (inject_Z 2 / inject_Z 4)%Q ((50 # 1) / inject_Z 4)%Q).
Proof.
  refine (proj1 (hourly_records_have_derived_fields Examples.df_one 0 "v1"
            (BatchProcessor.mk_entry 0
               (BatchProcessor.mk_metrics 4 2 (50 # 1) 5 2
                  (inject_Z 2 / inject_Z 4)%Q ((50 # 1) / inject_Z 4)%Q)) _)).
  by_evaluation.
Defined.

Section batch_more.

Import BigQuery BatchProcessor.

Lemma hour_start_range t ts :
  hour_start_of t = hour_start_of ts ↔
  hour_start_of ts <= t < hour_start_of ts + 3600.
Proof.
  unfold hour_start_of. split.
  - intros H. pose proof (Z.mul_div_le t 3600 ltac:(lia)).
    pose proof (Z.mul_succ_div_gt t 3600 ltac:(lia)). lia.
  - intros H. f_equal. symmetry.
    apply Z.div_unique with (r := t - 3600 * (ts / 3600)).
    + left. lia.
    + lia.
Qed.

Lemma remove_dups_length_mono (l k : list string) :
  (∀ x, x ∈ l → x ∈ k) →
  (length (remove_dups l) ≤ length (remove_dups k))%nat.
Proof.
  intros H. apply submseteq_length. apply NoDup_submseteq.
  - apply NoDup_remove_dups.
  - intros x Hx. rewrite elem_of_remove_dups in Hx.
    rewrite elem_of_remove_dups. by apply H.
Qed.

Lemma count_distinct_pos (l : list string) : l ≠ [] → 1 <= count_distinct l.
Proof.
  destruct l as [|x l]; [done|]. intros _. unfold count_distinct.
  assert (Hx : x ∈ remove_dups (x :: l)) by (apply elem_of_remove_dups; left).
  destruct (remove_dups (x :: l)); [by apply elem_of_nil in Hx|]. simpl. lia.
Qed.

(** What the GROUP BY row of one video looks like. *)
Lemma hourly_query_row raw hs he row :
  row ∈ hourly_query raw hs he →
  0 <= df_unique_views row <= df_unique_users row
  ∧ 1 <= df_unique_users row
  ∧ 1 <= df_countries_reached row
  ∧ 0 <= df_likes row.
Proof.
  unfold hourly_query.
  set (rows := filter (λ e, (hs <=? ev_event_timestamp e)
                            && (ev_event_timestamp e <? he)) raw).
  intros H. change (map ?f ?l) with (f <$> l) in H.
  apply list_elem_of_fmap in H as (v & -> & Hv). simpl.
  unfold group_keys in Hv. rewrite elem_of_remove_dups in Hv.
  change (map ?f ?l) with (f <$> l) in Hv.
  apply list_elem_of_fmap in Hv as (e & -> & He).
  assert (Hg : e ∈ filter (of_video (ev_video_id e)) rows).
  { apply list_elem_of_filter. split; [|done].
    unfold of_video. apply Is_true_true, String.eqb_refl. }
  assert (Hne : filter (of_video (ev_video_id e)) rows ≠ []).
  { intros Hnil. rewrite Hnil in Hg. by apply elem_of_nil in Hg. }
  unfold count_distinct, count_rows. repeat split; try lia.
  - apply inj_le, remove_dups_length_mono. intros x Hx.
    change (map ?f ?l) with (f <$> l) in *.
    apply list_elem_of_fmap in Hx as (y & -> & Hy).
    apply list_elem_of_filter in Hy as [_ Hy].
    apply list_elem_of_fmap. eauto.
  - apply count_distinct_pos. by destruct (filter _ rows).
  - apply count_distinct_pos. by destruct (filter _ rows).
Qed.

Lemma filter_filter_nil {A : Type} (P Q : A → Prop) `{!∀ x, Decision (P x)}
    `{!∀ x, Decision (Q x)} (l : list A) :
  (∀ x, Q x → ¬ P x) → filter P (filter Q l) = [].
Proof.
  intros Hqp. apply filter_none. intros y Hy.
  apply list_elem_of_filter in Hy as [Hq _]. by apply Hqp.
Qed.

Lemma filter_filter_same {A : Type} (P Q : A → Prop) `{!∀ x, Decision (P x)}
    `{!∀ x, Decision (Q x)} (l : list A) :
  (∀ x, P x → Q x) → filter P (filter Q l) = filter P l.
Proof.
  intros Hpq. induction l as [|a l IH]; [done|].
  rewrite (filter_cons Q), (filter_cons P).
  destruct (decide (Q a)) as [Hq|Hq].
  - rewrite filter_cons. destruct (decide (P a)); by rewrite IH.
  - destruct (decide (P a)) as [Hp|_]; [by destruct (Hq (Hpq a Hp)) | done].
Qed.

End batch_more.

(** X20.  Hourly buckets partition the events: a video gets a row in the
    rollup of a timestamp exactly when it has a raw event whose own hour
    is the hour of that timestamp, so every event is counted in the
    rollup of one hour and of no other. *)
Theorem hourly_buckets_partition_events (raw : list BigQuery.raw_event)
    (ts : Z) (v : string) :
  v ∈ map BatchProcessor.row_video_id
        (BatchProcessor.rows_to_insert
           (BatchProcessor.process_hourly_aggregation raw ts))
  ↔ ∃ e, e ∈ raw ∧ BigQuery.ev_video_id e = v
         ∧ BatchProcessor.hour_start_of (BigQuery.ev_event_timestamp e)
           = BatchProcessor.hour_start_of ts.
Proof.
  rewrite rollup_videos. split; intros (e & He & Hv & Hr); exists e;
    (split; [done|]); (split; [done|]); by apply hour_start_range.
Qed.

(** X21.  Sanity of the hourly counts: in every record of an hourly
    aggregation the distinct viewers are at most the distinct users, there
    is at least one user and one country, and no count is negative. *)
Theorem hourly_counts_are_consistent (raw : list BigQuery.raw_event) (ts : Z)
    (vid : string) (data : BatchProcessor.agg_entry) :
  BatchProcessor.process_hourly_aggregation raw ts !! vid = Some data →
  let m := BatchProcessor.entry_metrics data in
  0 <= BatchProcessor.unique_views m <= BatchProcessor.unique_users m
  ∧ 1 <= BatchProcessor.unique_users m
  ∧ 1 <= BatchProcessor.countries_reached m
  ∧ 0 <= BatchProcessor.likes m.
Proof.
  intros H m. unfold m.
  unfold BatchProcessor.process_hourly_aggregation,
    BatchProcessor._process_aggregation_results in H.
  apply (foldl_insert_lookup BatchProcessor.df_video_id) in H
    as [H | (row & Hrow & _ & ->)]; [by rewrite lookup_empty in H|].
  cbn [BatchProcessor.entry_metrics BatchProcessor.unique_views
       BatchProcessor.unique_users BatchProcessor.countries_reached
       BatchProcessor.likes].
  by eapply hourly_query_row.
Qed.

Lemma hourly_counts_are_consistent_witness :
  0 <= 1 <= 1 ∧ 1 <= 1 ∧ 1 <= 1 ∧ 0 <= 1.
Proof.
  refine (hourly_counts_are_consistent Examples.raw_events 0 "v1"
            (BatchProcessor.mk_entry 0
               (BatchProcessor.mk_metrics 1 1 (30 # 1) 1 1 (1 # 1) (30 # 1))) _).
  by_evaluation.
Defined.

(** X22.  Retention against rollup.  After [run_daily_cleanup], the rollup
    of an hour that lies wholly before the retention date finds nothing,
    whether or not that hour had been rolled up before; the rollup of an
    hour that starts at or after the retention date is what it would have
    been without the cleanup. *)
Theorem retention_then_rollup (now days : Z) (raw : list BigQuery.raw_event)
    (ts : Z) :
  let raw' := BatchProcessor.run_daily_cleanup now days raw in
  let bucket := BatchProcessor.hour_start_of ts in
  (bucket + 3600 <= now - days * 86400 →
     BatchProcessor.process_hourly_aggregation raw' ts = ∅)
  ∧ (now - days * 86400 <= bucket →
     BatchProcessor.process_hourly_aggregation raw' ts
     = BatchProcessor.process_hourly_aggregation raw ts).
Proof.
  intros raw' bucket. unfold raw', BatchProcessor.run_daily_cleanup.
  unfold BatchProcessor.process_hourly_aggregation, BatchProcessor.hourly_query.
  fold bucket. split; intros Hb.
  - rewrite filter_filter_nil; [done|].
    intros x Hq Hp. apply Is_true_true in Hq, Hp.
    apply negb_true_iff, Z.ltb_ge in Hq.
    apply andb_true_iff in Hp as [_ Hp]. apply Z.ltb_lt in Hp. lia.
  - rewrite filter_filter_same; [done|].
    intros x Hp. apply Is_true_true in Hp. apply Is_true_true.
    apply andb_true_iff in Hp as [Hp _]. apply Z.leb_le in Hp.
    apply negb_true_iff, Z.ltb_ge. lia.
Qed.

Section rollup_more.

Import BigQuery BatchRollup.

Lemma aggregate_metrics_lookup df vid m :
  _aggregate_metrics df !! vid = Some m →
  vid ∈ group_keys df ∧ m = group_metrics (filter (of_video vid) df).
Proof.
  unfold _aggregate_metrics. intros H.
  apply (foldl_insert_lookup id (λ v, group_metrics (filter (of_video v) df)))
    in H as [H | (v & Hv & <- & ->)]; [by rewrite lookup_empty in H | done].
Qed.

Lemma aggregate_metrics_dom df :
  dom (_aggregate_metrics df) = list_to_set (group_keys df).
Proof.
  unfold _aggregate_metrics.
  rewrite (foldl_insert_dom id (λ v, group_metrics (filter (of_video v) df))).
  by rewrite dom_empty_L, (left_id_L ∅ (∪)), list_fmap_id.
Qed.

Lemma value_counts_lookup (l : list string) (x : string) :
  value_counts l !! x =
  if decide (x ∈ l) then Some (Z.of_nat (length (filter (λ y, y = x) l)))
  else None.
Proof.
  induction l as [|a l IH]; [done|].
  change (value_counts (a :: l))
    with (<[a := 1 + default 0 (value_counts l !! a)]> (value_counts l)).
  rewrite filter_cons. destruct (decide (a = x)) as [->|Hne].
  - rewrite lookup_insert_eq, IH.
    destruct (decide (x ∈ x :: l)) as [_|Hn]; [|destruct Hn; left].
    f_equal. destruct (decide (x ∈ l)) as [_|Hn]; simpl; [lia|].
    rewrite filter_none; [done|]. intros y Hy ->. done.
  - rewrite lookup_insert_ne by done. rewrite IH.
    destruct (decide (x ∈ l)) as [Hin|Hn];
      destruct (decide (x ∈ a :: l)) as [Hin'|Hn']; try done.
    + destruct Hn'. by right.
    + apply elem_of_cons in Hin' as [?|?]; congruence.
Qed.

End rollup_more.

(** X23.  The windows of [process_batch] overlap at their ends.  A window
    without events writes nothing and returns the empty dictionary; but an
    event stamped exactly T lies both in the window that ends at T and in
    the window that ends at T + 3600, so two consecutive hourly runs both
    aggregate it. *)
Theorem batch_windows_share_their_boundary (now : Z)
    (raw : list BigQuery.raw_event) (T : Z)
    (table : list BatchRollup.saved_row) :
  ((∀ e, e ∈ raw → ¬ (T - 3600 <= BigQuery.ev_event_timestamp e <= T)) →
   BatchRollup.process_batch now raw (Some T) table = Ret (∅, table))
  ∧ (∀ e, e ∈ raw → BigQuery.ev_event_timestamp e = T →
       ∃ m1 t1 m2 t2,
         BatchRollup.process_batch now raw (Some T) table = Ret (m1, t1)
         ∧ BatchRollup.process_batch now raw (Some (T + 3600)) table
           = Ret (m2, t2)
         ∧ BigQuery.ev_video_id e ∈ dom m1
         ∧ BigQuery.ev_video_id e ∈ dom m2).
Proof.
  assert (Hrun : ∀ B e, e ∈ raw → B - 3600 <= BigQuery.ev_event_timestamp e <= B →
            ∃ m t, BatchRollup.process_batch now raw (Some B) table = Ret (m, t)
                   ∧ BigQuery.ev_video_id e ∈ dom m).
  { intros B e He Hr. unfold BatchRollup.process_batch.
    change (default now (Some B)) with B. cbv zeta.
    set (df := filter (λ e0, (B - 3600 <=? BigQuery.ev_event_timestamp e0)
                             && (BigQuery.ev_event_timestamp e0 <=? B)) raw).
    assert (Hdf : e ∈ df).
    { apply list_elem_of_filter. split; [|done].
      apply Is_true_true, andb_true_iff. split; apply Z.leb_le; lia. }
    assert (Hdom : BigQuery.ev_video_id e ∈ dom (BatchRollup._aggregate_metrics df)).
    { rewrite aggregate_metrics_dom, elem_of_list_to_set.
      unfold BigQuery.group_keys. rewrite elem_of_remove_dups.
      change (map ?f ?l) with (f <$> l). apply list_elem_of_fmap. eauto. }
    destruct df as [|e0 df0] eqn:Hd; [by apply elem_of_nil in Hdf|].
    unfold BatchRollup._save_aggregated_metrics, BigQuery.insert_rows_json.
    unfold mbind, outcome_bind. cbn [bind].
    eexists _, _. split; [reflexivity | exact Hdom]. }
  split.
  - intros Hnone. unfold BatchRollup.process_batch.
    change (default now (Some T)) with T. cbv zeta.
    rewrite filter_none; [done|]. intros e He Hp. apply (Hnone e He).
    apply Is_true_true, andb_true_iff in Hp as [H1 H2].
    apply Z.leb_le in H1, H2. lia.
  - intros e He Ht.
    destruct (Hrun T e He ltac:(lia)) as (m1 & t1 & H1 & D1).
    destruct (Hrun (T + 3600) e He ltac:(lia)) as (m2 & t2 & H2 & D2).
    exists m1, t1, m2, t2. done.
Qed.

(** X24.  Every record [_aggregate_metrics] builds has exactly the eight
    keys unique_views, likes, total_watch_time, unique_users,
    countries_reached, device_breakdown, quality_breakdown and
    engagement_rate, and its engagement_rate is likes / unique_views when
    unique_views > 0 and the integer 0 otherwise. *)
Theorem batch_record_shape (df : list BigQuery.raw_event) (vid : string)
    (m : gmap string BatchRollup.val) :
  BatchRollup._aggregate_metrics df !! vid = Some m →
  dom m = BatchRollup.record_keys
  ∧ ∃ views likes,
      m !! "unique_views" = Some (BatchRollup.VInt views)
      ∧ m !! "likes" = Some (BatchRollup.VInt likes)
      ∧ m !! "engagement_rate"
        = Some (if 0 <? views
                then BatchRollup.VFloat (inject_Z likes / inject_Z views)%Q
                else BatchRollup.VInt 0).
Proof.
  intros H. apply aggregate_metrics_lookup in H as [_ ->].
  unfold BatchRollup.group_metrics.
  set (g := filter (BigQuery.of_video vid) df).
  set (views := BigQuery.count_distinct _).
  set (likes := BigQuery.count_rows _).
  split.
  - unfold BatchRollup.record_keys.
    destruct (0 <? views); rewrite !dom_insert_L, dom_empty_L;
      apply set_eq; intros x; rewrite !elem_of_union, !elem_of_singleton,
        elem_of_empty; tauto.
  - exists views, likes.
    destruct (0 <? views); repeat split;
      rewrite ?lookup_insert_eq; rewrite ?lookup_insert_ne by done;
      rewrite ?lookup_insert_eq; rewrite ?lookup_insert_ne by done;
      by rewrite ?lookup_insert_eq.
Qed.

Lemma batch_record_shape_witness :
  dom (BatchRollup.group_metrics Examples.one_view) = BatchRollup.record_keys.
Proof.
  refine (proj1 (batch_record_shape Examples.one_view "v1"
                   (BatchRollup.group_metrics Examples.one_view) _)).
  by_evaluation.
Defined.

(** X25.  The breakdowns count events: in every record of
    [_aggregate_metrics] the device_breakdown maps each device type seen
    for the video to the number of the video's events with that device
    type, and has no entry for any other device type. *)
Theorem device_breakdown_counts_events (df : list BigQuery.raw_event)
    (vid : string) (m : gmap string BatchRollup.val) (device : string) :
  BatchRollup._aggregate_metrics df !! vid = Some m →
  let devices := map BigQuery.ev_device_type
                   (filter (BigQuery.of_video vid) df) in
  ∃ counts,
    m !! "device_breakdown" = Some (BatchRollup.VCounts counts)
    ∧ counts !! device
      = if decide (device ∈ devices)
        then Some (Z.of_nat (length (filter (λ d, d = device) devices)))
        else None.
Proof.
  intros H devices. apply aggregate_metrics_lookup in H as [_ ->].
  exists (BatchRollup.value_counts devices). split.
  - unfold BatchRollup.group_metrics.
    destruct (0 <? _); rewrite lookup_insert_ne by done;
      do 5 (rewrite lookup_insert_ne by done); by rewrite lookup_insert_eq.
  - apply value_counts_lookup.
Qed.

Lemma device_breakdown_counts_events_witness :
  ∃ counts,
    BatchRollup.group_metrics Examples.one_view !! "device_breakdown"
      = Some (BatchRollup.VCounts counts)
    ∧ counts !! "tv" = Some 1.
Proof.
  destruct (device_breakdown_counts_events Examples.one_view "v1"
              (BatchRollup.group_metrics Examples.one_view) "tv")
    as (counts & Hc & Hl).
  - by_evaluation.
  - exists counts. split; [exact Hc|]. rewrite Hl. by_evaluation.
Defined.

(* ===================================================================== *)
(** * Further properties of the HTTP routes                               *)
(* ===================================================================== *)

Section api_more.

Import Redis ApiServer.

Lemma realtime_outcomes now vid r :
  (∃ vm, get_realtime_metrics now vid r = Ret vm)
  ∨ get_realtime_metrics now vid r
    = Raise (HTTPException 500 "Internal server error").
Proof.
  unfold get_realtime_metrics.
  destruct (get_realtime_metrics_body now vid r); simpl; eauto.
Qed.

Lemma realtime_key_not_prefixed vid :
  String.prefix "yt:" (realtime_key vid) = false.
Proof. reflexivity. Qed.

Lemma bare_key self vid :
  RedisCache.prefix self = "" → RedisCache.metrics_key self vid = realtime_key vid.
Proof.
  intros H. unfold RedisCache.metrics_key, RedisCache._get_key. by rewrite H.
Qed.

End api_more.

(** X26.  The realtime route and the cache do not meet.  The route reads
    "video:<id>:metrics" while the cache, under its default prefix, writes
    "yt:video:<id>:metrics": on a store all of whose hashes are named with
    the prefix "yt:", the route answers HTTP 500 for every video.  And
    whatever the store, the route never answers 404: its own 404 is turned
    into the 500 as well. *)
Theorem realtime_route_misses_prefixed_entries (now : Z) (vid : string)
    (r : Redis.server) :
  ((∀ k, is_Some (Redis.hashes r !! k) → String.prefix "yt:" k = true) →
   ApiServer.get_realtime_metrics now vid r
   = Raise (HTTPException 500 "Internal server error"))
  ∧ (∀ detail, ApiServer.get_realtime_metrics now vid r
               ≠ Raise (HTTPException 404 detail)).
Proof.
  split.
  - intros Hall.
    assert (Hk : Redis.hashes r !! ApiServer.realtime_key vid = None).
    { destruct (Redis.hashes r !! ApiServer.realtime_key vid) eqn:E; [|done].
      assert (Hp : String.prefix "yt:" (ApiServer.realtime_key vid) = true)
        by (apply Hall; rewrite E; eauto).
      by rewrite realtime_key_not_prefixed in Hp. }
    unfold ApiServer.get_realtime_metrics, ApiServer.get_realtime_metrics_body,
      Redis.hgetall, Redis.hgetall_fields, Redis.live_entry.
    rewrite Hk. by destruct (Redis.up r).
  - intros detail.
    destruct (realtime_outcomes now vid r) as [[vm ->] | ->]; discriminate.
Qed.

Lemma realtime_route_misses_prefixed_entries_witness :
  ApiServer.get_realtime_metrics 200 "v1" Examples.server_v1
  = Raise (HTTPException 500 "Internal server error").
Proof.
  refine (proj1 (realtime_route_misses_prefixed_entries 200 "v1"
                   Examples.server_v1) _).
  intros k [e He].
  assert (Hd : k ∈ dom (Redis.hashes Examples.server_v1))
    by (apply elem_of_dom; eauto).
  assert (Hdom : dom (Redis.hashes Examples.server_v1)
                 = {[ RedisCache.metrics_key Examples.cfg "v1" ]})
    by by_evaluation.
  rewrite Hdom in Hd. apply elem_of_singleton in Hd as ->. reflexivity.
Defined.

(** X27.  With a cache configured without prefix the two readers agree:
    the cache get returns a dictionary exactly when the realtime route
    returns a VideoMetrics, and then with the same seven values; every
    failure of the route (nothing stored, unreachable backend, unreadable
    field) is a [None] of the cache get. *)
Theorem realtime_route_agrees_with_bare_cache (self : RedisCache.config)
    (now : Z) (vid : string) (r : Redis.server) :
  RedisCache.prefix self = "" →
  RedisCache.get_video_metrics self now vid r
  = match ApiServer.get_realtime_metrics now vid r with
    | Ret vm => Some (ApiServer.as_dict vm)
    | Raise _ => None
    end
  ∧ ∀ vm, ApiServer.get_realtime_metrics now vid r = Ret vm →
          ApiServer.vm_video_id vm = vid.
Proof.
  intros Hp.
  unfold RedisCache.get_video_metrics, RedisCache.get_video_metrics_body,
    ApiServer.get_realtime_metrics, ApiServer.get_realtime_metrics_body.
  rewrite (bare_key self vid Hp).
  unfold Redis.hgetall, mbind, outcome_bind.
  destruct (Redis.up r); cbn [bind try_except]; [|split; [done | discriminate]].
  set (h := Redis.hgetall_fields now r (ApiServer.realtime_key vid)).
  destruct (truthy h); cbn [negb bind try_except]; [|split; [done | discriminate]].
  destruct (int_get h "views") as [v|]; cbn [bind try_except];
    [|split; [done | discriminate]].
  destruct (int_get h "likes") as [l|]; cbn [bind try_except];
    [|split; [done | discriminate]].
  destruct (float_get h "watch_time") as [w|]; cbn [bind try_except];
    [|split; [done | discriminate]].
  destruct (int_get h "unique_users") as [u|]; cbn [bind try_except];
    [|split; [done | discriminate]].
  destruct (int_get h "countries_reached") as [c|]; cbn [bind try_except];
    [|split; [done | discriminate]].
  destruct (float_get h "engagement_rate") as [e|]; cbn [bind try_except];
    [|split; [done | discriminate]].
  destruct (float_get h "avg_watch_time") as [a|]; cbn [bind try_except];
    [|split; [done | discriminate]].
  split; [done|]. intros vm [= <-]. done.
Qed.

Lemma realtime_route_agrees_with_bare_cache_witness :
  RedisCache.get_video_metrics Examples.cfg_bare 200 "v1" Examples.server_bare
  = match ApiServer.get_realtime_metrics 200 "v1" Examples.server_bare with
    | Ret vm => Some (ApiServer.as_dict vm)
    | Raise _ => None
    end.
Proof.
  refine (proj1 (realtime_route_agrees_with_bare_cache Examples.cfg_bare 200
                   "v1" Examples.server_bare _)).
  reflexivity.
Defined.

(** X28.  The historical route has no 404 either: a range without rows is
    answered with HTTP 500 "Internal server error", and no call ends in a
    404. *)
Theorem historical_route_empty_range_is_500
    (table : list BatchProcessor.agg_row) (vid : string) (s e : Z) :
  (ApiServer.rows_in_range table vid s e = [] →
   ApiServer.get_historical_metrics table vid s e
   = Raise (HTTPException 500 "Internal server error"))
  ∧ (∀ detail, ApiServer.get_historical_metrics table vid s e
               ≠ Raise (HTTPException 404 detail)).
Proof.
  unfold ApiServer.get_historical_metrics, ApiServer.get_historical_metrics_body.
  split.
  - by intros ->.
  - intros detail. by destruct (ApiServer.rows_in_range table vid s e).
Qed.

Lemma historical_route_empty_range_is_500_witness :
  ApiServer.get_historical_metrics Examples.table_skewed "v9" 0 3600
  = Raise (HTTPException 500 "Internal server error").
Proof.
  refine (proj1 (historical_route_empty_range_is_500 Examples.table_skewed
                   "v9" 0 3600) _).
  reflexivity.
Defined.

Section end_to_end.

Import BigQuery BatchProcessor.

Lemma sumQ_single q : (sumQ [q] == q)%Q.
Proof. unfold sumQ. simpl. unfold inject_Z. ring. Qed.

Lemma avgQ_single q : (avgQ [q] == q)%Q.
Proof.
  unfold avgQ. rewrite sumQ_single. simpl. unfold inject_Z. field.
Qed.

(** The rows of a fresh rollup that a query for one video and exactly the
    bucket instant finds: the one row of that video. *)
Lemma rows_in_range_of_rollup raw ts vid data :
  process_hourly_aggregation raw ts !! vid = Some data →
  ApiServer.rows_in_range (rows_to_insert (process_hourly_aggregation raw ts))
    vid (hour_start_of ts) (hour_start_of ts)
  = [entry_metrics data].
Proof.
  intros H. unfold ApiServer.rows_in_range.
  set (rows := rows_to_insert (process_hourly_aggregation raw ts)).
  assert (Hrow : mk_row vid (entry_timestamp data) (entry_metrics data) ∈ rows).
  { unfold rows, rows_to_insert. apply list_elem_of_In, List.in_map_iff.
    exists (vid, data). split; [done|].
    apply list_elem_of_In. by apply elem_of_map_to_list. }
  rewrite (filter_unique_key row_video_id _ rows
             (mk_row vid (entry_timestamp data) (entry_metrics data))).
  - done.
  - apply rows_nodup.
  - exact Hrow.
  - intros y Hy. apply (rollup_timestamps raw ts) in Hy. simpl.
    rewrite Hy. split.
    + intros Hp. apply Is_true_true in Hp.
      apply andb_true_iff in Hp as [Hp _]. apply andb_true_iff in Hp as [Hp _].
      by apply String.eqb_eq in Hp.
    + intros ->. apply Is_true_true. rewrite String.eqb_refl. simpl.
      apply andb_true_iff. split; apply Z.leb_le; lia.
Qed.

End end_to_end.

(** X29.  Rollup, then query.  When the rollup is saved into the (so far
    empty) table the historical route reads, the route asked for a video of
    the bucket over the range that is just the bucket's start returns that
    video's record: the same counts, and watch time and both derived rates
    equal to the record's (an average over one bucket is the value of that
    bucket). *)
Theorem rollup_then_historical (raw : list BigQuery.raw_event) (ts : Z)
    (vid : string) (data : BatchProcessor.agg_entry) :
  BatchProcessor.process_hourly_aggregation raw ts !! vid = Some data →
  let bucket := BatchProcessor.hour_start_of ts in
  let rec := BatchProcessor.entry_metrics data in
  ∃ table res,
    BatchProcessor.run_rollup raw ts [] = Ret table
    ∧ ApiServer.get_historical_metrics table vid bucket bucket = Ret res
    ∧ ApiServer.vm_views (ApiServer.tr_metrics res)
      = BatchProcessor.unique_views rec
    ∧ ApiServer.vm_likes (ApiServer.tr_metrics res) = BatchProcessor.likes rec
    ∧ ApiServer.vm_unique_users (ApiServer.tr_metrics res)
      = BatchProcessor.unique_users rec
    ∧ ApiServer.vm_countries_reached (ApiServer.tr_metrics res)
      = BatchProcessor.countries_reached rec
    ∧ (ApiServer.vm_watch_time (ApiServer.tr_metrics res)
       == BatchProcessor.total_watch_time rec)%Q
    ∧ (ApiServer.vm_engagement_rate (ApiServer.tr_metrics res)
       == BatchProcessor.engagement_rate rec)%Q
    ∧ (ApiServer.vm_avg_watch_time (ApiServer.tr_metrics res)
       == BatchProcessor.avg_watch_time rec)%Q.
Proof.
  intros H bucket rec.
  exists (BatchProcessor.rows_to_insert
            (BatchProcessor.process_hourly_aggregation raw ts)).
  exists (ApiServer.mk_time_range bucket bucket
            (ApiServer.historical_row vid [rec])).
  split; [reflexivity|]. split.
  - unfold ApiServer.get_historical_metrics,
      ApiServer.get_historical_metrics_body.
    unfold bucket. by rewrite (rows_in_range_of_rollup raw ts vid data H).
  - unfold ApiServer.historical_row.
    cbn [ApiServer.tr_metrics ApiServer.vm_views ApiServer.vm_likes
         ApiServer.vm_unique_users ApiServer.vm_countries_reached
         ApiServer.vm_watch_time ApiServer.vm_engagement_rate
         ApiServer.vm_avg_watch_time map BigQuery.sumZ BigQuery.maxZ foldr].
    repeat split; try lia.
    + apply sumQ_single.
    + apply avgQ_single.
    + apply avgQ_single.
Qed.

Lemma rollup_then_historical_witness :
  ∃ table res,
    BatchProcessor.run_rollup Examples.raw_events 0 [] = Ret table
    ∧ ApiServer.get_historical_metrics table "v1" 0 0 = Ret res
    ∧ ApiServer.vm_views (ApiServer.tr_metrics res) = 1.
Proof.
  destruct (rollup_then_historical Examples.raw_events 0 "v1"
              (BatchProcessor.mk_entry 0
                 (BatchProcessor.mk_metrics 1 1 (30 # 1) 1 1 (1 # 1) (30 # 1))))
    as (table & res & H1 & H2 & H3 & _).
  - by_evaluation.
  - exists table, res. split; [exact H1|]. split; [exact H2 | exact H3].
Defined.

Section validator_facts.

Import EventValidator.

Context {Event : Type}.
Variable validate : Event → option failure.

Lemma validate_batch_from (events : list Event) (valid0 : list Event)
    (invalid0 : list (Event * string)) :
  foldl (λ '(valid_events, invalid_events) event,
           match validate_event validate event with
           | None => (valid_events ++ [event], invalid_events)
           | Some error => (valid_events, invalid_events ++ [(event, error)])
           end)
        (valid0, invalid0) events
  = (valid0 ++ filter (λ ev, is_valid validate ev = true) events,
     invalid0 ++ omap (λ ev, (λ err, (ev, err)) <$> validate_event validate ev)
                      events).
Proof.
  revert valid0 invalid0.
  induction events as [|ev events IH]; intros valid0 invalid0; simpl.
  - by rewrite !app_nil_r.
  - rewrite filter_cons. cbn [foldl omap list_omap].
    destruct (validate_event validate ev) as [err|] eqn:E.
    + rewrite decide_False by (unfold is_valid; rewrite E; discriminate).
      cbn [fmap option_fmap option_map]. rewrite IH.
      by rewrite <- !app_assoc.
    + rewrite decide_True by (unfold is_valid; by rewrite E).
      cbn [fmap option_fmap option_map]. rewrite IH.
      by rewrite <- !app_assoc.
Qed.

End validator_facts.

(** X30.  [validate_batch] splits its input without losing or reordering
    anything: the first list is the sub-list of the events that validate,
    in input order; the second pairs every other event, in input order,
    with the message [validate_event] gives for it; and the two lengths
    add up to the length of the input. *)
Theorem validate_batch_partitions {Event : Type}
    (validate : Event → option EventValidator.failure) (events : list Event) :
  let res := EventValidator.validate_batch validate events in
  fst res = filter (λ ev, EventValidator.is_valid validate ev = true) events
  ∧ map fst (snd res)
    = filter (λ ev, EventValidator.is_valid validate ev = false) events
  ∧ (∀ ev err, (ev, err) ∈ snd res →
       EventValidator.validate_event validate ev = Some err)
  ∧ (length (fst res) + length (snd res))%nat = length events.
Proof.
  intros res. unfold res, EventValidator.validate_batch. clear res.
  rewrite validate_batch_from. cbn [fst snd app].
  split; [done|].
  assert (Hsnd : ∀ l : list Event,
    map fst (omap (λ ev, (λ err, (ev, err))
                           <$> EventValidator.validate_event validate ev) l)
    = filter (λ ev, EventValidator.is_valid validate ev = false) l).
  { induction l as [|ev l IH]; [done|].
    rewrite filter_cons. cbn [omap list_omap].
    destruct (EventValidator.validate_event validate ev) as [err|] eqn:E.
    - rewrite decide_True
        by (unfold EventValidator.is_valid; by rewrite E).
      cbn [fmap option_fmap option_map map fst]. by rewrite IH.
    - rewrite decide_False
        by (unfold EventValidator.is_valid; rewrite E; discriminate).
      cbn [fmap option_fmap option_map]. exact IH. }
  split; [apply Hsnd|]. split.
  - intros ev err Hin. apply list_elem_of_omap in Hin as (ev' & _ & Hev).
    destruct (EventValidator.validate_event validate ev') eqn:E; [|done].
    simpl in Hev. by inversion Hev; subst.
  - rewrite <- (length_map fst), Hsnd.
    induction events as [|ev l IH]; [done|].
    rewrite !filter_cons.
    destruct (EventValidator.is_valid validate ev);
      [rewrite decide_True by done; rewrite decide_False by done
      |rewrite decide_False by done; rewrite decide_True by done];
      simpl; lia.
Qed.
